(** * The data-access tools of the SQL support bot, and its shell loop

    A shallow embedding of [src/agent.py]; the tool layer and the loop
    of [src/agent_deepagents.py] are the same text.  The four tools
    build an SQL statement with an f-string and hand it to [db.run];
    the loader feeds a fetched script to [executescript].  Both end in
    SQLite, which is not part of the repository: the engine is
    modelled here for the statement forms that the tools and a small
    loader script use.  Whatever falls outside that fragment evaluates
    to [Unmodelled], never to a guessed answer.

    Strings are byte strings.  The case folding of SQLite's LIKE is
    the ASCII one, and so is the one modelled for Python's [lower]:
    the shell compares the lowered line with three ASCII words, and no
    other letter lowers to one of theirs.  Engine limits (statement
    length, LIKE pattern length) are not modelled, nor are REAL and
    BLOB cells. *)

From Stdlib Require Import List String Ascii Bool Arith ZArith NArith Lia.
From Stdlib Require Import DecimalString DecimalN DecimalZ DecimalPos.
Import ListNotations.
Open Scope string_scope.

Set Implicit Arguments.

(** ** Python-level results *)

Module Py.

(** The exceptions that reach the code under study. *)
Inductive exn :=
| ConnectionError      (* requests.get: network unreachable *)
| OperationalError     (* the engine refuses the statement *)
| ProgrammingError     (* execute() given more than one statement *)
| EOFError             (* input() at the end of the input *)
| IndexError.          (* [-1] on an empty list *)

(** A call returns, raises, or leaves the modelled fragment. *)
Inductive outcome (A : Type) :=
| Ret (a : A)
| Raise (e : exn)
| Unmodelled.

Arguments Ret {A} a.
Arguments Raise {A} e.
Arguments Unmodelled {A}.

Definition bind {A B} (c : outcome A) (k : A -> outcome B) : outcome B :=
  match c with
  | Ret a => k a
  | Raise e => Raise e
  | Unmodelled => Unmodelled
  end.

(** A value handed to a tool: Python does not enforce annotations. *)
Inductive pyval :=
| PyInt (n : Z)
| PyStr (s : string).

(** [str(n)] for an int. *)
Definition str_of_int (n : Z) : string :=
  NilZero.string_of_int (Z.to_int n).

(** What [{x}] puts into an f-string. *)
Definition format (v : pyval) : string :=
  match v with
  | PyInt n => str_of_int n
  | PyStr s => s
  end.

Definition in_range (lo hi : N) (c : ascii) : bool :=
  (lo <=? N_of_ascii c)%N && (N_of_ascii c <=? hi)%N.

Definition lower_ascii (c : ascii) : ascii :=
  if in_range 65 90 c then ascii_of_N (N_of_ascii c + 32) else c.

(** [s.lower()] *)
Fixpoint lower (s : string) : string :=
  match s with
  | EmptyString => EmptyString
  | String c s' => String (lower_ascii c) (lower s')
  end.

(** [x in xs] for strings. *)
Definition str_in (x : string) (xs : list string) : bool :=
  existsb (String.eqb x) xs.

End Py.

Import Py.

Notation "x <- c ;; k" := (Py.bind c (fun x => k))
  (at level 61, c at next level, right associativity).

(** ** Text helpers *)

Definition has_char (c : ascii) (s : string) : bool :=
  existsb (Ascii.eqb c) (list_ascii_of_string s).

(** [prefix_ci p s]: [p] is a prefix of [s] up to ASCII case. *)
Fixpoint prefix_ci (p s : string) : bool :=
  match p, s with
  | EmptyString, _ => true
  | String _ _, EmptyString => false
  | String c p', String d s' =>
      Ascii.eqb (lower_ascii c) (lower_ascii d) && prefix_ci p' s'
  end.

(** [contains_ci frag s]: [frag] occurs in [s] up to ASCII case. *)
Fixpoint contains_ci (frag s : string) : bool :=
  prefix_ci frag s ||
  match s with
  | EmptyString => false
  | String _ s' => contains_ci frag s'
  end.

(** ** The engine: values, LIKE, tokens *)

Module Sql.

(** A cell of a table. *)
Inductive value :=
| VNull
| VInt (n : Z)
| VText (s : string).

Definition value_eqb (a b : value) : bool :=
  match a, b with
  | VNull, VNull => true
  | VInt x, VInt y => Z.eqb x y
  | VText x, VText y => String.eqb x y
  | _, _ => false
  end.

Definition is_null (v : value) : bool :=
  match v with VNull => true | _ => false end.

(** The text LIKE sees: numbers are rendered, NULL has none. *)
Definition text_of (v : value) : option string :=
  match v with
  | VNull => None
  | VInt n => Some (str_of_int n)
  | VText s => Some s
  end.

(** [like p s]: SQLite's LIKE without ESCAPE.  [%] stands for any run
    of characters, [_] for one, letters match up to ASCII case. *)
Fixpoint like (p s : string) : bool :=
  match p with
  | EmptyString =>
      match s with EmptyString => true | String _ _ => false end
  | String c p' =>
      if Ascii.eqb c "%" then
        (fix skip (t : string) : bool :=
           like p' t ||
           match t with
           | EmptyString => false
           | String _ t' => skip t'
           end) s
      else
        match s with
        | EmptyString => false
        | String d s' =>
            (Ascii.eqb c "_" || Ascii.eqb (lower_ascii c) (lower_ascii d))
            && like p' s'
        end
  end.

(** Three-valued results: [None] is NULL. *)
Definition like_value (subject pattern : value) : option bool :=
  match text_of subject, text_of pattern with
  | Some s, Some p => Some (like p s)
  | _, _ => None
  end.

Definition eq_value (a b : value) : option bool :=
  if is_null a || is_null b then None else Some (value_eqb a b).

Definition not3 (a : option bool) : option bool := option_map negb a.

Definition and3 (a b : option bool) : option bool :=
  match a, b with
  | Some false, _ | _, Some false => Some false
  | Some true, Some true => Some true
  | _, _ => None
  end.

Definition or3 (a b : option bool) : option bool :=
  match a, b with
  | Some true, _ | _, Some true => Some true
  | Some false, Some false => Some false
  | _, _ => None
  end.

(** WHERE and ON keep a row only when the condition is true. *)
Definition holds (a : option bool) : bool :=
  match a with Some true => true | _ => false end.

(** *** Tokens *)

Inductive kw :=
| KSelect | KFrom | KWhere | KJoin | KLeft | KInner | KOuter | KOn | KAs
| KLike | KAnd | KOr | KNot | KNull
| KInsert | KInto | KValues | KCreate | KTable.

Inductive sym :=
| SEq | SComma | SDot | SSemi | SStar | SLParen | SRParen | SMinus
| SPercent.

Inductive token :=
| TKw (k : kw)
| TId (name : string)
| TStr (s : string)
| TNum (n : N)
| TSym (s : sym)
| TRes       (* a word SQLite reserves and the model does not cover *)
| TUnk       (* a character the model does not cover; lexing stops *)
| TBad.      (* a string literal that never closes; lexing stops *)

Definition kw_table : list (string * kw) :=
  [("select", KSelect); ("from", KFrom); ("where", KWhere);
   ("join", KJoin); ("left", KLeft); ("inner", KInner);
   ("outer", KOuter); ("on", KOn); ("as", KAs); ("like", KLike);
   ("and", KAnd); ("or", KOr); ("not", KNot); ("null", KNull);
   ("insert", KInsert); ("into", KInto); ("values", KValues);
   ("create", KCreate); ("table", KTable)].

(** The other keywords of SQLite, and the names it resolves by itself
    ([rowid], [true], ...): a statement using one is not modelled. *)
Definition reserved_words : list string :=
  ["abort"; "action"; "add"; "after"; "all"; "alter"; "always";
   "analyze"; "asc"; "attach"; "autoincrement"; "before"; "begin";
   "between"; "by"; "cascade"; "case"; "cast"; "check"; "collate";
   "column"; "commit"; "conflict"; "constraint"; "cross"; "current";
   "current_date"; "current_time"; "current_timestamp"; "database";
   "default"; "deferrable"; "deferred"; "delete"; "desc"; "detach";
   "distinct"; "do"; "drop"; "each"; "else"; "end"; "escape"; "except";
   "exclude"; "exclusive"; "exists"; "explain"; "fail"; "filter";
   "first"; "following"; "for"; "foreign"; "full"; "generated"; "glob";
   "group"; "groups"; "having"; "if"; "ignore"; "immediate"; "in";
   "index"; "indexed"; "initially"; "instead"; "intersect"; "is";
   "isnull"; "key"; "last"; "limit"; "match"; "materialized";
   "natural"; "no"; "nothing"; "notnull"; "nulls"; "of"; "offset";
   "order"; "others"; "over"; "partition"; "plan"; "pragma";
   "preceding"; "primary"; "query"; "raise"; "range"; "recursive";
   "references"; "regexp"; "reindex"; "release"; "rename"; "replace";
   "restrict"; "returning"; "right"; "rollback"; "row"; "rows";
   "savepoint"; "set"; "temp"; "temporary"; "then"; "ties"; "to";
   "transaction"; "trigger"; "unbounded"; "union"; "unique"; "update";
   "using"; "vacuum"; "view"; "virtual"; "when"; "window"; "with";
   "without";
   "rowid"; "oid"; "_rowid_"; "true"; "false"].

Fixpoint assoc {A} (k : string) (l : list (string * A)) : option A :=
  match l with
  | [] => None
  | (k', a) :: l' => if String.eqb k k' then Some a else assoc k l'
  end.

(** Keywords and names are read without regard to case. *)
Definition word_token (w : string) : token :=
  match assoc (lower w) kw_table with
  | Some k => TKw k
  | None => if str_in (lower w) reserved_words then TRes else TId w
  end.

Definition is_space (c : ascii) : bool :=
  in_range 9 10 c || in_range 12 13 c || Ascii.eqb c " ".

Definition is_digit (c : ascii) : bool := in_range 48 57 c.

Definition is_alpha (c : ascii) : bool :=
  in_range 65 90 c || in_range 97 122 c || Ascii.eqb c "_".

Definition is_idchar (c : ascii) : bool :=
  is_alpha c || is_digit c || Ascii.eqb c "$".

Definition digit_val (c : ascii) : N := (N_of_ascii c - 48)%N.

Definition sym_of (c : ascii) : option sym :=
  if Ascii.eqb c "=" then Some SEq
  else if Ascii.eqb c "," then Some SComma
  else if Ascii.eqb c "." then Some SDot
  else if Ascii.eqb c ";" then Some SSemi
  else if Ascii.eqb c "*" then Some SStar
  else if Ascii.eqb c "(" then Some SLParen
  else if Ascii.eqb c ")" then Some SRParen
  else if Ascii.eqb c "%" then Some SPercent
  else None.

Definition snoc (s : string) (c : ascii) : string := s ++ String c "".

(** What the lexer is in the middle of. *)
Inductive mode :=
| MTop
| MStr (acc : string)     (* inside '...' *)
| MStrQ (acc : string)    (* just after a quote inside '...' *)
| MWord (acc : string)
| MNum (acc : N)
| MDash                   (* after one - *)
| MLine.                  (* inside a -- comment *)

Definition flush (m : mode) : list token :=
  match m with
  | MTop | MLine => []
  | MStr _ => [TBad]
  | MStrQ acc => [TStr acc]
  | MWord acc => [word_token acc]
  | MNum n => [TNum n]
  | MDash => [TSym SMinus]
  end.

(** What one character does in top position: the tokens it completes,
    and the mode it leaves the lexer in ([None]: lexing stops). *)
Definition step_top (c : ascii) : list token * option mode :=
  if is_space c then ([], Some MTop)
  else if Ascii.eqb c "'" then ([], Some (MStr ""))
  else if is_alpha c then ([], Some (MWord (String c "")))
  else if is_digit c then ([], Some (MNum (digit_val c)))
  else if Ascii.eqb c "-" then ([], Some MDash)
  else match sym_of c with
       | Some y => ([TSym y], Some MTop)
       | None => ([TUnk], None)
       end.

Definition after (t : token) (r : list token * option mode)
  : list token * option mode :=
  (t :: fst r, snd r).

(** A quote doubled inside a literal stands for itself; nothing else
    is special inside a literal. *)
Definition step (m : mode) (c : ascii) : list token * option mode :=
  match m with
  | MTop => step_top c
  | MStr acc =>
      if Ascii.eqb c "'" then ([], Some (MStrQ acc))
      else ([], Some (MStr (snoc acc c)))
  | MStrQ acc =>
      if Ascii.eqb c "'" then ([], Some (MStr (snoc acc c)))
      else after (TStr acc) (step_top c)
  | MWord acc =>
      if is_idchar c then ([], Some (MWord (snoc acc c)))
      else after (word_token acc) (step_top c)
  | MNum n =>
      if is_digit c then ([], Some (MNum (10 * n + digit_val c)))
      else if is_idchar c || Ascii.eqb c "." then ([TUnk], None)
      else after (TNum n) (step_top c)
  | MDash =>
      if Ascii.eqb c "-" then ([], Some MLine)
      else after (TSym SMinus) (step_top c)
  | MLine =>
      if Ascii.eqb c "010" then ([], Some MTop) else ([], Some MLine)
  end.

(** One pass over the text. *)
Fixpoint lex (m : mode) (s : string) : list token :=
  match s with
  | EmptyString => flush m
  | String c s' =>
      (fst (step m c) ++
       match snd (step m c) with
       | Some m' => lex m' s'
       | None => []
       end)%list
  end.

(** The same pass over the first part of a text: the tokens completed
    so far, and the mode reached. *)
Fixpoint feed (m : mode) (s : string) : list token * option mode :=
  match s with
  | EmptyString => ([], Some m)
  | String c s' =>
      match snd (step m c) with
      | Some m' =>
          let r := feed m' s' in ((fst (step m c) ++ fst r)%list, snd r)
      | None => (fst (step m c), None)
      end
  end.

Definition tokens (text : string) : list token := lex MTop text.

(** *** Statements *)

Inductive operand :=
| OLit (v : value)
| OCol (tbl : option string) (col : string).

Inductive cond :=
| CEq (a b : operand)
| CLike (a p : operand)
| CNot (c : cond)
| CAnd (c d : cond)
| COr (c d : cond).

Inductive join_kind := Inner | LeftOuter.

Record join := { j_kind : join_kind; j_table : string; j_on : cond }.

Inductive projection :=
| Star
| Items (items : list (operand * option string)).

Record select := {
  s_proj : projection;
  s_from : string;
  s_joins : list join;
  s_where : option cond }.

(** Column affinity, from the declared type. *)
Inductive affinity := AInteger | AText | ANone | AReal | ANumeric.

Inductive stmt :=
| SSelect (q : select)
| SInsert (t : string) (vals : list value)
| SCreate (t : string) (cols : list (string * affinity)).

(** *** Parsing.  [None] means: not in the modelled grammar. *)

Definition parse_literal (ts : list token) : option (value * list token) :=
  match ts with
  | TStr s :: r => Some (VText s, r)
  | TNum n :: r => Some (VInt (Z.of_N n), r)
  | TSym SMinus :: TNum n :: r => Some (VInt (- Z.of_N n), r)
  | TKw KNull :: r => Some (VNull, r)
  | _ => None
  end.

Definition parse_operand (ts : list token) : option (operand * list token) :=
  match ts with
  | TId t :: TSym SDot :: TId c :: r => Some (OCol (Some t) c, r)
  | TId c :: r => Some (OCol None c, r)
  | _ =>
      match parse_literal ts with
      | Some (v, r) => Some (OLit v, r)
      | None => None
      end
  end.

Definition parse_cmp (ts : list token) : option (cond * list token) :=
  match parse_operand ts with
  | Some (a, TSym SEq :: r) =>
      match parse_operand r with
      | Some (b, r') => Some (CEq a b, r')
      | None => None
      end
  | Some (a, TKw KLike :: r) =>
      match parse_operand r with
      | Some (b, r') => Some (CLike a b, r')
      | None => None
      end
  | _ => None
  end.

Fixpoint parse_not (ts : list token) : option (cond * list token) :=
  match ts with
  | TKw KNot :: r =>
      match parse_not r with
      | Some (c, r') => Some (CNot c, r')
      | None => None
      end
  | _ => parse_cmp ts
  end.

Fixpoint parse_and (fuel : nat) (ts : list token)
  : option (cond * list token) :=
  match fuel with
  | O => None
  | S f =>
      match parse_not ts with
      | Some (c, TKw KAnd :: r) =>
          match parse_and f r with
          | Some (d, r') => Some (CAnd c d, r')
          | None => None
          end
      | other => other
      end
  end.

Fixpoint parse_or (fuel : nat) (ts : list token)
  : option (cond * list token) :=
  match fuel with
  | O => None
  | S f =>
      match parse_and (List.length ts) ts with
      | Some (c, TKw KOr :: r) =>
          match parse_or f r with
          | Some (d, r') => Some (COr c d, r')
          | None => None
          end
      | other => other
      end
  end.

(** Every step consumes a token, so the length of the input is fuel
    enough. *)
Definition parse_cond (ts : list token) : option (cond * list token) :=
  parse_or (List.length ts) ts.

Fixpoint parse_items (fuel : nat) (ts : list token)
  : option (list (operand * option string) * list token) :=
  match fuel with
  | O => None
  | S f =>
      match parse_operand ts with
      | None => None
      | Some (e, r) =>
          let '(al, r1) :=
            match r with
            | TKw KAs :: TId a :: r' => (Some a, r')
            | _ => (None, r)
            end in
          match r1 with
          | TSym SComma :: r2 =>
              match parse_items f r2 with
              | Some (l, r3) => Some ((e, al) :: l, r3)
              | None => None
              end
          | _ => Some ([(e, al)], r1)
          end
      end
  end.

Definition parse_join_head (ts : list token)
  : option (join_kind * string * list token) :=
  match ts with
  | TKw KJoin :: TId t :: TKw KOn :: r => Some (Inner, t, r)
  | TKw KInner :: TKw KJoin :: TId t :: TKw KOn :: r => Some (Inner, t, r)
  | TKw KLeft :: TKw KJoin :: TId t :: TKw KOn :: r => Some (LeftOuter, t, r)
  | TKw KLeft :: TKw KOuter :: TKw KJoin :: TId t :: TKw KOn :: r =>
      Some (LeftOuter, t, r)
  | _ => None
  end.

Fixpoint parse_joins (fuel : nat) (ts : list token)
  : option (list join * list token) :=
  match fuel with
  | O => None
  | S f =>
      match parse_join_head ts with
      | None => Some ([], ts)
      | Some (k, t, r) =>
          match parse_cond r with
          | None => None
          | Some (c, r') =>
              match parse_joins f r' with
              | Some (js, r'') =>
                  Some ({| j_kind := k; j_table := t; j_on := c |} :: js, r'')
              | None => None
              end
          end
      end
  end.

(** The tokens after SELECT, up to the end of the statement. *)
Definition parse_select (ts : list token) : option select :=
  let proj :=
    match ts with
    | TSym SStar :: r => Some (Star, r)
    | _ =>
        match parse_items (List.length ts) ts with
        | Some (l, r) => Some (Items l, r)
        | None => None
        end
    end in
  match proj with
  | Some (p, TKw KFrom :: TId t :: r) =>
      match parse_joins (S (List.length r)) r with
      | Some (js, []) =>
          Some {| s_proj := p; s_from := t; s_joins := js;
                  s_where := None |}
      | Some (js, TKw KWhere :: r') =>
          match parse_cond r' with
          | Some (c, []) =>
              Some {| s_proj := p; s_from := t; s_joins := js;
                      s_where := Some c |}
          | _ => None
          end
      | _ => None
      end
  | _ => None
  end.

Fixpoint parse_values (fuel : nat) (ts : list token)
  : option (list value) :=
  match fuel with
  | O => None
  | S f =>
      match parse_literal ts with
      | Some (v, [TSym SRParen]) => Some [v]
      | Some (v, TSym SComma :: r) =>
          match parse_values f r with
          | Some l => Some (v :: l)
          | None => None
          end
      | _ => None
      end
  end.

(** SQLite derives the affinity from substrings of the type name. *)
Definition affinity_of (type_name : string) : affinity :=
  let has x := contains_ci x type_name in
  if has "INT" then AInteger
  else if has "CHAR" || has "CLOB" || has "TEXT" then AText
  else if has "BLOB" then ANone
  else if has "REAL" || has "FLOA" || has "DOUB" then AReal
  else ANumeric.

(** A column definition: a name, and a type name with an optional
    length.  Constraints are not modelled. *)
Definition parse_coldef (ts : list token)
  : option (string * affinity * list token) :=
  match ts with
  | TId c :: TId ty :: TSym SLParen :: TNum _ :: TSym SRParen :: r =>
      Some (c, affinity_of ty, r)
  | TId c :: TId ty :: r => Some (c, affinity_of ty, r)
  | TId c :: r => Some (c, ANone, r)
  | _ => None
  end.

Fixpoint parse_coldefs (fuel : nat) (ts : list token)
  : option (list (string * affinity)) :=
  match fuel with
  | O => None
  | S f =>
      match parse_coldef ts with
      | Some (c, a, [TSym SRParen]) => Some [(c, a)]
      | Some (c, a, TSym SComma :: r) =>
          match parse_coldefs f r with
          | Some l => Some ((c, a) :: l)
          | None => None
          end
      | _ => None
      end
  end.

(** One statement, without its semicolon. *)
Definition parse_stmt (ts : list token) : option stmt :=
  match ts with
  | TKw KSelect :: r => option_map SSelect (parse_select r)
  | TKw KInsert :: TKw KInto :: TId t :: TKw KValues :: TSym SLParen :: r =>
      option_map (SInsert t) (parse_values (List.length r) r)
  | TKw KCreate :: TKw KTable :: TId t :: TSym SLParen :: r =>
      option_map (SCreate t) (parse_coldefs (List.length r) r)
  | _ => None
  end.

(** *** The store *)

Definition row := list value.

Record table := {
  t_name : string;
  t_cols : list (string * affinity);
  t_rows : list row }.

Definition database := list table.

Definition same_name (a b : string) : bool :=
  String.eqb (lower a) (lower b).

Fixpoint find_table (db : database) (name : string) : option table :=
  match db with
  | [] => None
  | t :: db' => if same_name (t_name t) name then Some t else find_table db' name
  end.

(** A stored row read at the width of its table. *)
Definition fit (n : nat) (r : row) : row := firstn n (r ++ repeat VNull n).

Definition scan (t : table) : list row :=
  map (fit (List.length (t_cols t))) (t_rows t).

(** *** Name resolution, done before any row is read *)

(** The columns a statement can name: table, column, affinity. *)
Definition scope := list (string * string * affinity).

Definition scope_of (t : table) : scope :=
  map (fun ca => (t_name t, fst ca, snd ca)) (t_cols t).

Definition names (tbl : option string) (col : string)
    (e : string * string * affinity) : bool :=
  same_name (snd (fst e)) col &&
  match tbl with
  | None => true
  | Some t => same_name (fst (fst e)) t
  end.

Fixpoint positions (tbl : option string) (col : string) (sc : scope)
    (i : nat) : list (nat * affinity) :=
  match sc with
  | [] => []
  | e :: sc' =>
      (if names tbl col e then [(i, snd e)] else [])
        ++ positions tbl col sc' (S i)
  end%list.

(** No such column, or an ambiguous one, is an error of the engine. *)
Definition resolve_col (sc : scope) (tbl : option string) (col : string)
  : outcome (nat * affinity) :=
  match positions tbl col sc 0 with
  | [p] => Ret p
  | _ => Raise OperationalError
  end.

Inductive rop :=
| RLit (v : value)
| RCol (i : nat).

Inductive rcond :=
| REq (a b : rop)
| RLike (a p : rop)
| RNot (c : rcond)
| RAnd (c d : rcond)
| ROr (c d : rcond).

Definition resolve_operand (sc : scope) (o : operand)
  : outcome (rop * option affinity) :=
  match o with
  | OLit v => Ret (RLit v, None)
  | OCol t c => p <- resolve_col sc t c ;; Ret (RCol (fst p), Some (snd p))
  end.

Definition numeric (a : affinity) : bool :=
  match a with
  | AInteger | AReal | ANumeric => true
  | AText | ANone => false
  end.

Definition lit_fits (a : affinity) (o : rop) : bool :=
  match a, o with
  | ANone, _ => true
  | _, RLit VNull => true
  | AText, RLit (VText _) => true
  | (AInteger | AReal | ANumeric), RLit (VInt _) => true
  | _, _ => false
  end.

(** [=] is modelled where SQLite compares the two cells as they are
    stored: there, an integer and a text are never equal.  Where it
    would first convert one side to the affinity of the other, the
    statement is left out. *)
Definition eq_plain (x y : rop * option affinity) : bool :=
  match snd x, snd y with
  | None, None => true
  | Some a, None => lit_fits a (fst y)
  | None, Some b => lit_fits b (fst x)
  | Some a, Some b =>
      (numeric a && numeric b)
      || match a, b with
         | AText, AText | ANone, ANone => true
         | _, _ => false
         end
  end.

Fixpoint resolve_cond (sc : scope) (c : cond) : outcome rcond :=
  match c with
  | CEq a b =>
      x <- resolve_operand sc a ;;
      y <- resolve_operand sc b ;;
      if eq_plain x y then Ret (REq (fst x) (fst y)) else Unmodelled
  | CLike a p =>
      x <- resolve_operand sc a ;;
      y <- resolve_operand sc p ;;
      Ret (RLike (fst x) (fst y))
  | CNot c1 => r <- resolve_cond sc c1 ;; Ret (RNot r)
  | CAnd c1 c2 =>
      r1 <- resolve_cond sc c1 ;; r2 <- resolve_cond sc c2 ;; Ret (RAnd r1 r2)
  | COr c1 c2 =>
      r1 <- resolve_cond sc c1 ;; r2 <- resolve_cond sc c2 ;; Ret (ROr r1 r2)
  end.

Definition rop_within (n : nat) (o : rop) : bool :=
  match o with
  | RLit _ => true
  | RCol i => Nat.ltb i n
  end.

Fixpoint rcond_within (n : nat) (c : rcond) : bool :=
  match c with
  | REq a b | RLike a b => rop_within n a && rop_within n b
  | RNot c1 => rcond_within n c1
  | RAnd c1 c2 | ROr c1 c2 => rcond_within n c1 && rcond_within n c2
  end.

(** *** Evaluation *)

Definition eval_rop (r : row) (o : rop) : value :=
  match o with
  | RLit v => v
  | RCol i => nth i r VNull
  end.

Fixpoint eval_rcond (c : rcond) (r : row) : option bool :=
  match c with
  | REq a b => eq_value (eval_rop r a) (eval_rop r b)
  | RLike a p => like_value (eval_rop r a) (eval_rop r p)
  | RNot c1 => not3 (eval_rcond c1 r)
  | RAnd c1 c2 => and3 (eval_rcond c1 r) (eval_rcond c2 r)
  | ROr c1 c2 => or3 (eval_rcond c1 r) (eval_rcond c2 r)
  end.

(** One join step.  A left row without a partner survives a LEFT JOIN
    with NULLs on the right, and is dropped by a plain JOIN. *)
Definition join_rows (k : join_kind) (on : rcond) (right : list row)
    (width : nat) (left : list row) : list row :=
  flat_map
    (fun l =>
       match k, filter (fun r => holds (eval_rcond on (l ++ r)%list)) right with
       | LeftOuter, [] => [(l ++ repeat VNull width)%list]
       | _, ms => map (app l) ms
       end)
    left.

Fixpoint lookup_joins (db : database) (js : list join)
  : outcome (list (join * table)) :=
  match js with
  | [] => Ret []
  | j :: js' =>
      match find_table db (j_table j) with
      | None => Raise OperationalError
      | Some t => rest <- lookup_joins db js' ;; Ret ((j, t) :: rest)
      end
  end.

(** ON is resolved against the whole FROM clause; a condition that
    looks to its right is left out of the model. *)
Fixpoint resolve_joins (full sc : scope) (jts : list (join * table))
  : outcome (list (join_kind * rcond * table)) :=
  match jts with
  | [] => Ret []
  | (j, t) :: rest =>
      let sc' := (sc ++ scope_of t)%list in
      on <- resolve_cond full (j_on j) ;;
      if rcond_within (List.length sc') on
      then (plan <- resolve_joins full sc' rest ;;
            Ret ((j_kind j, on, t) :: plan))
      else Unmodelled
  end.

Fixpoint apply_joins (plan : list (join_kind * rcond * table))
    (rows : list row) : list row :=
  match plan with
  | [] => rows
  | (k, on, t) :: plan' =>
      apply_joins plan' (join_rows k on (scan t) (List.length (t_cols t)) rows)
  end.

Fixpoint star_items (sc : scope) (i : nat) : list (string * rop) :=
  match sc with
  | [] => []
  | e :: sc' => (snd (fst e), RCol i) :: star_items sc' (S i)
  end.

(** The label of an unaliased column is its declared name. *)
Fixpoint resolve_items (sc : scope) (items : list (operand * option string))
  : outcome (list (string * rop)) :=
  match items with
  | [] => Ret []
  | (o, alias) :: items' =>
      x <- resolve_operand sc o ;;
      rest <- resolve_items sc items' ;;
      match alias, fst x with
      | Some a, _ => Ret ((a, fst x) :: rest)
      | None, RCol i =>
          Ret ((snd (fst (nth i sc (""%string, ""%string, ANone))), fst x) :: rest)
      | None, RLit _ => Unmodelled
      end
  end.

Definition resolve_proj (sc : scope) (p : projection)
  : outcome (list (string * rop)) :=
  match p with
  | Star => Ret (star_items sc 0)
  | Items l => resolve_items sc l
  end.

Definition resolve_where (sc : scope) (w : option cond)
  : outcome (option rcond) :=
  match w with
  | None => Ret None
  | Some c => r <- resolve_cond sc c ;; Ret (Some r)
  end.

Definition keep (w : option rcond) (r : row) : bool :=
  match w with
  | None => true
  | Some c => holds (eval_rcond c r)
  end.

Definition project (items : list (string * rop)) (r : row)
  : list (string * value) :=
  map (fun it => (fst it, eval_rop r (snd it))) items.

Definition exec_select (db : database) (q : select)
  : outcome (list (list (string * value))) :=
  match find_table db (s_from q) with
  | None => Raise OperationalError
  | Some t0 =>
      jts <- lookup_joins db (s_joins q) ;;
      let full := (scope_of t0 ++ flat_map (fun jt => scope_of (snd jt)) jts)%list in
      plan <- resolve_joins full (scope_of t0) jts ;;
      w <- resolve_where full (s_where q) ;;
      items <- resolve_proj full (s_proj q) ;;
      Ret (map (project items) (filter (keep w) (apply_joins plan (scan t0))))
  end.

(** What a column of the given affinity stores for an inserted value. *)
Definition store_as (a : affinity) (v : value) : outcome value :=
  match v, a with
  | VNull, _ => Ret VNull
  | VInt n, AText => Ret (VText (str_of_int n))
  | VInt _, AReal => Unmodelled
  | VInt _, _ => Ret v
  | VText _, (AText | ANone) => Ret v
  | VText _, _ => Unmodelled
  end.

Fixpoint store_row (cols : list (string * affinity)) (vals : list value)
  : outcome row :=
  match cols, vals with
  | [], [] => Ret []
  | (_, a) :: cols', v :: vals' =>
      x <- store_as a v ;; rest <- store_row cols' vals' ;; Ret (x :: rest)
  | _, _ => Raise OperationalError
  end.

Fixpoint add_row (db : database) (name : string) (r : row) : database :=
  match db with
  | [] => []
  | t :: db' =>
      if same_name (t_name t) name
      then {| t_name := t_name t; t_cols := t_cols t;
              t_rows := (t_rows t ++ [r])%list |} :: db'
      else t :: add_row db' name r
  end.

Fixpoint distinct_names (l : list string) : bool :=
  match l with
  | [] => true
  | x :: l' => negb (existsb (same_name x) l') && distinct_names l'
  end.

(** A statement runs against the store and may change it. *)
Definition exec_stmt (db : database) (s : stmt)
  : database * outcome (list (list (string * value))) :=
  match s with
  | SSelect q => (db, exec_select db q)
  | SInsert name vals =>
      match find_table db name with
      | None => (db, Raise OperationalError)
      | Some t =>
          match store_row (t_cols t) vals with
          | Ret r => (add_row db name r, Ret [])
          | Raise e => (db, Raise e)
          | Unmodelled => (db, Unmodelled)
          end
      end
  | SCreate name cols =>
      match find_table db name with
      | Some _ => (db, Raise OperationalError)
      | None =>
          if distinct_names (map fst cols)
          then ((db ++ [{| t_name := name; t_cols := cols; t_rows := [] |}])%list,
                Ret [])
          else (db, Raise OperationalError)
      end
  end.

(** *** The two entry points of the sqlite3 module *)

(** The tokens of the first statement, and those after its semicolon. *)
Fixpoint split_semi (ts : list token) : list token * list token :=
  match ts with
  | [] => ([], [])
  | TSym SSemi :: r => ([], r)
  | t :: r => let (a, b) := split_semi r in (t :: a, b)
  end.

Definition is_bad (t : token) : bool :=
  match t with TBad => true | _ => false end.

Definition is_uncovered (t : token) : bool :=
  match t with TUnk | TRes => true | _ => false end.

(** A literal that never closes is an error whatever surrounds it. *)
Definition prepare (ts : list token) : outcome stmt :=
  if existsb is_bad ts then Raise OperationalError
  else if existsb is_uncovered ts then Unmodelled
  else match parse_stmt ts with
       | Some s => Ret s
       | None => Unmodelled
       end.

(** [cursor.execute]: the first statement is compiled, anything but
    blanks and comments after it is refused, then it runs. *)
Definition execute (db : database) (text : string)
  : database * outcome (list (list (string * value))) :=
  let (st, tail) := split_semi (tokens text) in
  match prepare st with
  | Ret s =>
      match exec_stmt db s with
      | (db', Ret rows) =>
          match tail with
          | [] => (db', Ret rows)
          | TUnk :: _ => (db, Unmodelled)
          | _ => (db, Raise ProgrammingError)
          end
      | (_, other) => (db, other)
      end
  | Raise e => (db, Raise e)
  | Unmodelled => (db, Unmodelled)
  end.

(** [connection.executescript]: statement after statement until one
    fails; what ran before the failure stays done. *)
Fixpoint run_script (fuel : nat) (db : database) (ts : list token)
  : database * outcome unit :=
  match fuel, ts with
  | _, [] => (db, Ret tt)
  | O, _ => (db, Unmodelled)
  | S f, _ =>
      match split_semi ts with
      | ([], tail) => run_script f db tail
      | (st, tail) =>
          match prepare st with
          | Ret s =>
              match exec_stmt db s with
              | (db', Ret _) => run_script f db' tail
              | (_, Raise e) => (db, Raise e)
              | (_, Unmodelled) => (db, Unmodelled)
              end
          | Raise e => (db, Raise e)
          | Unmodelled => (db, Unmodelled)
          end
      end
  end.

Definition executescript (db : database) (script : string)
  : database * outcome unit :=
  let ts := tokens script in run_script (List.length ts) db ts.

End Sql.

Import Sql.

(** ** [db.run]

    [SQLDatabase.run] wraps the text in SQLAlchemy's [text()] and
    executes it on the one connection.  [text()] reads [:name] as a
    bind parameter, so a statement with a colon is left out of the
    model, as is one with a NUL.  The rows come back as dicts keyed by
    column label when [include_columns] is set (the labels of the
    tools' statements are distinct) and as tuples otherwise; [run]
    shortens the texts longer than 300 characters, then returns the
    [str] of the rows, and the empty string when there is no row.
    That shortening and that rendering are not modelled: the result
    here is the list of rows, empty for the empty string. *)

Inductive pyrow :=
| RowDict (cells : list (string * value))
| RowTuple (cells : list value).

Definition render_row (include_columns : bool) (r : list (string * value))
  : pyrow :=
  if include_columns then RowDict r else RowTuple (map snd r).

Definition outside_text (command : string) : bool :=
  has_char ":" command || has_char "000" command.

Definition run (db : database) (command : string) (include_columns : bool)
  : database * outcome (list pyrow) :=
  if outside_text command then (db, Unmodelled)
  else
    match execute db command with
    | (db', Ret rows) => (db', Ret (map (render_row include_columns) rows))
    | (db', Raise e) => (db', Raise e)
    | (db', Unmodelled) => (db', Unmodelled)
    end.

(** ** The four tools ([src/agent.py], lines 47 to 91)

    The module-level [db] is the explicit first argument, and comes
    back with the result. *)

Definition get_albums_by_artist (db : database) (artist : string)
  : database * outcome (list pyrow) :=
  run db
    ("
        SELECT Album.Title, Artist.Name
        FROM Album
        JOIN Artist ON Album.ArtistId = Artist.ArtistId
        WHERE Artist.Name LIKE '%" ++ artist ++ "%';
        ")
    true.

Definition get_tracks_by_artist (db : database) (artist : string)
  : database * outcome (list pyrow) :=
  run db
    ("
        SELECT Track.Name as SongName, Artist.Name as ArtistName
        FROM Album
        LEFT JOIN Artist ON Album.ArtistId = Artist.ArtistId
        LEFT JOIN Track ON Track.AlbumId = Album.AlbumId
        WHERE Artist.Name LIKE '%" ++ artist ++ "%';
        ")
    true.

Definition check_for_songs (db : database) (song_title : string)
  : database * outcome (list pyrow) :=
  run db
    ("
        SELECT * FROM Track WHERE Name LIKE '%" ++ song_title ++ "%';
        ")
    true.

(** The parameter is annotated [int]; the body formats whatever it is
    given. *)
Definition get_customer_info (db : database) (customer_id : pyval)
  : database * outcome (list pyrow) :=
  run db
    ("SELECT * FROM Customer WHERE CustomerID = " ++ format customer_id ++ ";")
    false.

(** ** The loader ([src/agent.py], lines 26 to 43) *)

(** What [requests.get(url)] meets.  It raises when the host cannot be
    reached and returns the response otherwise, whatever its status. *)
Inductive fetched :=
| Unreachable
| Responded (status_code : nat) (text : string).

Definition requests_get (w : fetched) : outcome (nat * string) :=
  match w with
  | Unreachable => Raise ConnectionError
  | Responded status text => Ret (status, text)
  end.

Definition get_engine_for_chinook_db (w : fetched) : outcome database :=
  response <- requests_get w ;;
  let sql_script := snd response in
  match executescript [] sql_script with
  | (connection, Ret _) => Ret connection
  | (_, Raise e) => Raise e
  | (_, Unmodelled) => Unmodelled
  end.

(** The module body: [engine = get_engine_for_chinook_db()], then
    [db = SQLDatabase(engine)].  An exception here ends the import,
    before any tool exists. *)
Definition startup (w : fetched) : outcome database :=
  get_engine_for_chinook_db w.

(** ** The tables the tools name

    The schema is not in the repository: it arrives with the fetched
    script.  The column lists are those of the Chinook tables; the
    tools themselves name only Artist.ArtistId, Artist.Name,
    Album.AlbumId, Album.Title, Album.ArtistId, Track.Name,
    Track.AlbumId and Customer.CustomerID. *)

Definition artist_cols : list (string * affinity) :=
  [("ArtistId", AInteger); ("Name", AText)].

Definition album_cols : list (string * affinity) :=
  [("AlbumId", AInteger); ("Title", AText); ("ArtistId", AInteger)].

Definition track_cols : list (string * affinity) :=
  [("TrackId", AInteger); ("Name", AText); ("AlbumId", AInteger);
   ("MediaTypeId", AInteger); ("GenreId", AInteger); ("Composer", AText);
   ("Milliseconds", AInteger); ("Bytes", AInteger); ("UnitPrice", ANumeric)].

Definition customer_cols : list (string * affinity) :=
  [("CustomerId", AInteger); ("FirstName", AText); ("LastName", AText);
   ("Company", AText); ("Address", AText); ("City", AText);
   ("State", AText); ("Country", AText); ("PostalCode", AText);
   ("Phone", AText); ("Fax", AText); ("Email", AText);
   ("SupportRepId", AInteger)].

Definition album_table (albums : list row) : table :=
  {| t_name := "Album"; t_cols := album_cols; t_rows := albums |}.

Definition artist_table (artists : list row) : table :=
  {| t_name := "Artist"; t_cols := artist_cols; t_rows := artists |}.

Definition customer_table (customers : list row) : table :=
  {| t_name := "Customer"; t_cols := customer_cols; t_rows := customers |}.

Definition track_table (tracks : list row) : table :=
  {| t_name := "Track"; t_cols := track_cols; t_rows := tracks |}.

(** A loaded store: the four tables, and whatever else was loaded. *)
Definition chinook (artists albums tracks customers : list row)
    (others : database) : database :=
  album_table albums :: artist_table artists :: customer_table customers
    :: track_table tracks :: others.

(** Cells by position, and the columns the tools name. *)
Definition cell (i : nat) (r : row) : value := nth i r VNull.

Definition artist_id : row -> value := cell 0.
Definition artist_name : row -> value := cell 1.
Definition album_id : row -> value := cell 0.
Definition album_title : row -> value := cell 1.
Definition album_artist : row -> value := cell 2.
Definition track_name : row -> value := cell 1.
Definition track_album : row -> value := cell 2.
Definition customer_id : row -> value := cell 0.

(** [refers a b]: the key [a] is the key [b], neither being NULL. *)
Definition refers (a b : value) : bool := holds (eq_value a b).

(** [name_has frag v]: [frag] occurs in the text of the cell, up to
    ASCII case; it occurs in no NULL. *)
Definition name_has (frag : string) (v : value) : bool :=
  match text_of v with
  | Some s => contains_ci frag s
  | None => false
  end.

(** The text LIKE is given around a fragment. *)
Definition pattern_of (frag : string) : value := VText ("%" ++ frag ++ "%").

(** [name_like frag v]: the cell matches [LIKE '%frag%']. *)
Definition name_like (frag : string) (v : value) : bool :=
  holds (like_value v (pattern_of frag)).

(** Text that stays inside the literal it is pasted into, and inside
    the modelled statements. *)
Definition plain (frag : string) : bool :=
  negb (has_char "'" frag) && negb (has_char ":" frag)
  && negb (has_char "000" frag).



Definition song_dict (song artist_name : value) : pyrow :=
  RowDict [("SongName", song); ("ArtistName", artist_name)].

Definition track_dict (t : row) : pyrow :=
  RowDict
    [("TrackId", cell 0 t); ("Name", cell 1 t); ("AlbumId", cell 2 t);
     ("MediaTypeId", cell 3 t); ("GenreId", cell 4 t);
     ("Composer", cell 5 t); ("Milliseconds", cell 6 t);
     ("Bytes", cell 7 t); ("UnitPrice", cell 8 t)].


(** ** The shell loop ([src/agent.py], lines 139 to 160) *)

Inductive role := User | Assistant.

(** [{"role": ..., "content": ...}] *)
Record entry := { e_role : role; e_content : string }.

(** A message of the returned history: it has a [content] attribute,
    or it is shown through [str]. *)
Inductive message :=
| WithContent (content : string)
| Other (str : string).

(** How a call of [agent.invoke] ends: with something that has a
    ["messages"] list, with something the test
    [result and "messages" in result] rejects, or with an exception. *)
Inductive invoked :=
| Messages (msgs : list message)
| NoMessages
| Raised (e : exn).

Definition is_exit (user_input : string) : bool :=
  str_in (lower user_input) ["quit"; "exit"; "q"].

Definition ai_content_of (ai_message : message) : string :=
  match ai_message with
  | WithContent c => c
  | Other s => s
  end.

Record shell_state := {
  conversation_history : list entry;
  printed : list string }.

Inductive ending :=
| Broke               (* the loop was left through [break] *)
| Crashed (e : exn).  (* an exception left the loop *)

(** [{"role": "user", "content": user_input}] and its counterpart. *)
Definition user_entry (user_input : string) : entry :=
  {| e_role := User; e_content := user_input |}.

Definition assistant_entry (ai_content : string) : entry :=
  {| e_role := Assistant; e_content := ai_content |}.

(** The argument of [print(f"\nAssistant: {ai_content}\n")]. *)
Definition assistant_line (ai_content : string) : string :=
  "
Assistant: " ++ ai_content ++ "
".

Section Shell.

(** The agent runtime, an outside capability. *)
Variable invoke : list entry -> invoked.

(** The loop over the lines still to come on standard input.  Each
    line costs one iteration; [input] raises at the end of input. *)
Fixpoint shell_loop (stdin : list string) (st : shell_state)
  : ending * shell_state :=
  match stdin with
  | [] =>
      (Crashed EOFError,
       {| conversation_history := conversation_history st;
          printed := (printed st ++ ["You: "])%list |})
  | user_input :: rest =>
      let out := (printed st ++ ["You: "])%list in
      if is_exit user_input then
        (Broke,
         {| conversation_history := conversation_history st;
            printed := (out ++ ["Goodbye!"])%list |})
      else
        let history :=
          (conversation_history st ++ [user_entry user_input])%list in
        match invoke history with
        | Messages msgs =>
            match rev msgs with
            | [] =>
                (Crashed IndexError,
                 {| conversation_history := history; printed := out |})
            | ai_message :: _ =>
                let ai_content := ai_content_of ai_message in
                shell_loop rest
                  {| conversation_history :=
                       (history ++ [assistant_entry ai_content])%list;
                     printed := (out ++ [assistant_line ai_content])%list |}
            end
        | NoMessages =>
            shell_loop rest
              {| conversation_history := history; printed := out |}
        | Raised e =>
            (Crashed e, {| conversation_history := history; printed := out |})
        end
  end.

End Shell.

(** ** The statements of the tools, read

    What the lexer and the parser make of the four f-strings when the
    pasted text stays inside its literal. *)

Definition albums_head_tokens : list token :=
  [TKw KSelect; TId "Album"; TSym SDot; TId "Title"; TSym SComma;
   TId "Artist"; TSym SDot; TId "Name";
   TKw KFrom; TId "Album";
   TKw KJoin; TId "Artist"; TKw KOn;
   TId "Album"; TSym SDot; TId "ArtistId"; TSym SEq;
   TId "Artist"; TSym SDot; TId "ArtistId";
   TKw KWhere; TId "Artist"; TSym SDot; TId "Name"; TKw KLike].

Definition tracks_head_tokens : list token :=
  [TKw KSelect; TId "Track"; TSym SDot; TId "Name"; TKw KAs; TId "SongName";
   TSym SComma;
   TId "Artist"; TSym SDot; TId "Name"; TKw KAs; TId "ArtistName";
   TKw KFrom; TId "Album";
   TKw KLeft; TKw KJoin; TId "Artist"; TKw KOn;
   TId "Album"; TSym SDot; TId "ArtistId"; TSym SEq;
   TId "Artist"; TSym SDot; TId "ArtistId";
   TKw KLeft; TKw KJoin; TId "Track"; TKw KOn;
   TId "Track"; TSym SDot; TId "AlbumId"; TSym SEq;
   TId "Album"; TSym SDot; TId "AlbumId";
   TKw KWhere; TId "Artist"; TSym SDot; TId "Name"; TKw KLike].

Definition songs_head_tokens : list token :=
  [TKw KSelect; TSym SStar; TKw KFrom; TId "Track";
   TKw KWhere; TId "Name"; TKw KLike].

Definition customer_head_tokens : list token :=
  [TKw KSelect; TSym SStar; TKw KFrom; TId "Customer";
   TKw KWhere; TId "CustomerID"; TSym SEq].

Definition albums_query (frag : string) : select :=
  {| s_proj := Items [(OCol (Some "Album") "Title", None);
                      (OCol (Some "Artist") "Name", None)];
     s_from := "Album";
     s_joins := [{| j_kind := Inner; j_table := "Artist";
                    j_on := CEq (OCol (Some "Album") "ArtistId")
                                (OCol (Some "Artist") "ArtistId") |}];
     s_where := Some (CLike (OCol (Some "Artist") "Name")
                            (OLit (pattern_of frag))) |}.

Definition tracks_query (frag : string) : select :=
  {| s_proj := Items [(OCol (Some "Track") "Name", Some "SongName");
                      (OCol (Some "Artist") "Name", Some "ArtistName")];
     s_from := "Album";
     s_joins := [{| j_kind := LeftOuter; j_table := "Artist";
                    j_on := CEq (OCol (Some "Album") "ArtistId")
                                (OCol (Some "Artist") "ArtistId") |};
                 {| j_kind := LeftOuter; j_table := "Track";
                    j_on := CEq (OCol (Some "Track") "AlbumId")
                                (OCol (Some "Album") "AlbumId") |}];
     s_where := Some (CLike (OCol (Some "Artist") "Name")
                            (OLit (pattern_of frag))) |}.

Definition songs_query (frag : string) : select :=
  {| s_proj := Star;
     s_from := "Track";
     s_joins := [];
     s_where := Some (CLike (OCol None "Name") (OLit (pattern_of frag))) |}.




(** The rows the four statements select, before Python labels them. *)
Definition albums_rows (artists albums : list row) (frag : string)
  : list row :=
  filter (fun r => name_like frag (cell 4 r))
    (join_rows Inner (REq (RCol 2) (RCol 3))
       (scan (artist_table artists)) 2 (scan (album_table albums))).

Definition tracks_rows (artists albums tracks : list row) (frag : string)
  : list row :=
  filter (fun r => name_like frag (cell 4 r))
    (join_rows LeftOuter (REq (RCol 7) (RCol 0))
       (scan (track_table tracks)) 9
       (join_rows LeftOuter (REq (RCol 2) (RCol 3))
          (scan (artist_table artists)) 2 (scan (album_table albums)))).

Definition songs_rows (tracks : list row) (frag : string) : list row :=
  filter (fun r => name_like frag (cell 1 r))
    (scan (track_table tracks)).


(** ** A small store for the examples *)

Definition demo_artists : list row :=
  [[VInt 1; VText "AC/DC"]; [VInt 2; VText "Guns N' Roses"];
   [VInt 3; VText "Solo_Act"]].

Definition demo_albums : list row :=
  [[VInt 10; VText "Back in Black"; VInt 1];
   [VInt 11; VText "Appetite for Destruction"; VInt 2];
   [VInt 12; VText "Unreleased"; VInt 2]].

Definition demo_tracks : list row :=
  [[VInt 100; VText "Hells Bells"; VInt 10; VInt 1; VInt 1; VNull;
    VInt 312; VInt 10; VInt 99];
   [VInt 101; VText "Paradise City"; VInt 11; VInt 1; VInt 1; VNull;
    VInt 406; VInt 13; VInt 99]].

Definition demo_customers : list row :=
  [[VInt 1; VText "Luis"; VText "Goncalves"; VNull; VNull; VNull; VNull;
    VText "Brazil"; VNull; VNull; VNull; VText "luisg@example.org"; VInt 3];
   [VInt 2; VText "Leonie"; VText "Kohler"; VNull; VNull; VNull; VNull;
    VText "Germany"; VNull; VNull; VNull; VText "leonek@example.org";
    VInt 5]].

Definition demo_store : database :=
  chinook demo_artists demo_albums demo_tracks demo_customers [].

(** A script cut off after its first table. *)
Definition partial_script : string :=
  "CREATE TABLE Artist (ArtistId INTEGER, Name NVARCHAR(120));
INSERT INTO Artist VALUES (1, 'AC/DC');
".


(** An agent that answers every history with one message. *)
Definition echo_agent (history : list entry) : invoked :=
  Messages [WithContent "ok"].

(** ** Further vocabulary *)


(** Text that the model of [db.run] covers: no colon, no NUL. *)
Definition covered (f : string) : bool :=
  negb (has_char ":" f) && negb (has_char "000" f).

(** Tokens that end with a semicolon, if there are any. *)
Definition closed (ts : list token) : Prop :=
  last ts (TSym SSemi) = TSym SSemi.

(** The last message of what [agent.invoke] handed back, when there
    is one. *)
Definition final_message (r : invoked) : option message :=
  match r with
  | Messages msgs =>
      match rev msgs with
      | m :: _ => Some m
      | [] => None
      end
  | NoMessages | Raised _ => None
  end.

(** The state after the given lines, each of them answered. *)
Fixpoint session (invoke : list entry -> invoked) (lines : list string)
    (st : shell_state) : shell_state :=
  match lines with
  | [] => st
  | user_input :: rest =>
      let history :=
        (conversation_history st ++ [user_entry user_input])%list in
      match final_message (invoke history) with
      | Some ai_message =>
          session invoke rest
            {| conversation_history :=
                 (history
                    ++ [assistant_entry (ai_content_of ai_message)])%list;
               printed :=
                 (printed st
                    ++ ["You: ";
                        assistant_line (ai_content_of ai_message)])%list |}
      | None => st
      end
  end.

Definition is_user (e : entry) : bool :=
  match e_role e with
  | User => true
  | Assistant => false
  end.

(** ** The choice of [src/agent_deepagents.py] (lines 204 to 211)

    [choice = input(...).strip()], then [if choice == "2"].  [strip]
    removes the white space of Python at both ends; over ASCII, that
    is the characters 9 to 13, 28 to 31 and the space. *)

Definition is_py_space (c : ascii) : bool :=
  in_range 9 13 c || in_range 28 32 c.

Fixpoint lstrip (s : string) : string :=
  match s with
  | EmptyString => EmptyString
  | String c s' => if is_py_space c then lstrip s' else s
  end.

Fixpoint rstrip (s : string) : string :=
  match s with
  | EmptyString => EmptyString
  | String c s' =>
      match rstrip s' with
      | EmptyString => if is_py_space c then EmptyString else String c ""
      | r => String c r
      end
  end.

Definition strip (s : string) : string := rstrip (lstrip s).

Definition blank (s : string) : bool :=
  forallb is_py_space (list_ascii_of_string s).

Definition ascii_only (s : string) : bool :=
  forallb (fun c => (N_of_ascii c <? 128)%N) (list_ascii_of_string s).

(** Which agent the main program builds. *)
Inductive architecture :=
| SimpleAgent       (* create_simple_agent() *)
| WithSubagents.    (* create_agent_with_subagents() *)

Definition choose_architecture (typed : string) : architecture :=
  let choice := strip typed in
  if String.eqb choice "2" then WithSubagents else SimpleAgent.

(** * Properties *)

Unset Implicit Arguments.

(** ** Strings *)

Lemma append_assoc (a b c : string) : (a ++ b) ++ c = a ++ b ++ c.
Proof. induction a as [|x a IH]; simpl; [reflexivity | now rewrite IH]. Qed.

Lemma append_empty_r (a : string) : a ++ "" = a.
Proof. induction a as [|x a IH]; simpl; [reflexivity | now rewrite IH]. Qed.

Lemma has_char_cons c x (a : string) :
  has_char c (String x a) = Ascii.eqb c x || has_char c a.
Proof. reflexivity. Qed.

Lemma has_char_app c (a b : string) :
  has_char c (a ++ b) = has_char c a || has_char c b.
Proof.
  induction a as [|x a IH]; [reflexivity|].
  change (String x a ++ b) with (String x (a ++ b)).
  now rewrite !has_char_cons, IH, orb_assoc.
Qed.

Lemma plain_inv (frag : string) :
  plain frag = true ->
  has_char "'" frag = false /\ has_char ":" frag = false
  /\ has_char "000" frag = false.
Proof.
  unfold plain. intros H.
  apply andb_prop in H as [H H3]. apply andb_prop in H as [H1 H2].
  repeat split; now apply negb_true_iff.
Qed.


(** A statement built around plain text is inside the model when its
    fixed parts are. *)
Lemma outside_text_plain (head frag tail : string) :
  plain frag = true ->
  outside_text head = false -> outside_text tail = false ->
  outside_text (head ++ frag ++ tail) = false.
Proof.
  intros Hp Hh Ht. destruct (plain_inv _ Hp) as (_ & Hc & Hz).
  unfold outside_text in *. apply orb_false_elim in Hh as [Hh1 Hh2].
  apply orb_false_elim in Ht as [Ht1 Ht2].
  rewrite !has_char_app, Hc, Hz, Hh1, Hh2, Ht1, Ht2. reflexivity.
Qed.

(** ** The lexer *)

(** The lexer is a state machine: a text can be read in two parts. *)
Lemma lex_app (a b : string) :
  forall m,
    lex m (a ++ b) =
    (fst (feed m a) ++
     match snd (feed m a) with
     | Some m' => lex m' b
     | None => []
     end)%list.
Proof.
  induction a as [|c a IH]; intros m.
  - reflexivity.
  - change (String c a ++ b) with (String c (a ++ b)).
    cbn [lex feed]. destruct (snd (step m c)) as [m'|].
    + rewrite IH. cbn [fst snd]. now rewrite app_assoc.
    + cbn [fst snd]. reflexivity.
Qed.

(** Inside a literal, text without a quote is taken as it stands. *)
Lemma feed_literal_body (frag : string) :
  has_char "'" frag = false ->
  forall acc, feed (MStr acc) frag = ([], Some (MStr (acc ++ frag))).
Proof.
  induction frag as [|c frag IH]; intros H acc.
  - simpl. now rewrite append_empty_r.
  - rewrite has_char_cons in H. apply orb_false_elim in H as [Hc Hf].
    rewrite Ascii.eqb_sym in Hc.
    cbn [feed step]. rewrite Hc. cbn [fst snd].
    rewrite (IH Hf). unfold snoc. cbn [fst snd app].
    now rewrite append_assoc.
Qed.

Lemma lex_literal_end (acc : string) :
  lex (MStr acc) "%';
        " = [TStr (acc ++ "%"); TSym SSemi].
Proof. reflexivity. Qed.

(** A head that ends inside a literal, plain text, and the closing
    part of the f-string. *)
Lemma lex_template (head frag : string) (toks : list token) :
  feed MTop head = (toks, Some (MStr "%")) ->
  has_char "'" frag = false ->
  tokens (head ++ frag ++ "%';
        ") = ((toks ++ [TStr ("%" ++ frag ++ "%")]) ++ [TSym SSemi])%list.
Proof.
  intros Hh Hq. unfold tokens. rewrite lex_app, Hh. cbn [fst snd].
  rewrite lex_app, (feed_literal_body _ Hq). cbn [fst snd app].
  rewrite lex_literal_end, append_assoc, <- app_assoc. reflexivity.
Qed.

Lemma feed_albums_head :
  feed MTop "
        SELECT Album.Title, Artist.Name
        FROM Album
        JOIN Artist ON Album.ArtistId = Artist.ArtistId
        WHERE Artist.Name LIKE '%"
  = (albums_head_tokens, Some (MStr "%")).
Proof. vm_compute. reflexivity. Qed.

Lemma feed_tracks_head :
  feed MTop "
        SELECT Track.Name as SongName, Artist.Name as ArtistName
        FROM Album
        LEFT JOIN Artist ON Album.ArtistId = Artist.ArtistId
        LEFT JOIN Track ON Track.AlbumId = Album.AlbumId
        WHERE Artist.Name LIKE '%"
  = (tracks_head_tokens, Some (MStr "%")).
Proof. vm_compute. reflexivity. Qed.

Lemma feed_songs_head :
  feed MTop "
        SELECT * FROM Track WHERE Name LIKE '%"
  = (songs_head_tokens, Some (MStr "%")).
Proof. vm_compute. reflexivity. Qed.

Lemma feed_customer_head :
  feed MTop "SELECT * FROM Customer WHERE CustomerID = "
  = (customer_head_tokens, Some MTop).
Proof. vm_compute. reflexivity. Qed.

(** *** Decimal numerals *)











(** ** From the text to the rows *)

(** One SELECT, closed by its semicolon and followed by nothing. *)
Lemma execute_select (db : database) (text : string) (st : list token)
    (q : select) :
  tokens text = (st ++ [TSym SSemi])%list ->
  split_semi (st ++ [TSym SSemi]) = (st, []) ->
  prepare st = Ret (SSelect q) ->
  execute db text = (db, exec_select db q).
Proof.
  intros Ht Hs Hp. unfold execute. rewrite Ht, Hs, Hp. cbn [exec_stmt].
  now destruct (exec_select db q).
Qed.

Lemma run_select (db : database) (text : string) (st : list token)
    (q : select) (inc : bool) (rows : list (list (string * value))) :
  outside_text text = false ->
  tokens text = (st ++ [TSym SSemi])%list ->
  split_semi (st ++ [TSym SSemi]) = (st, []) ->
  prepare st = Ret (SSelect q) ->
  exec_select db q = Ret rows ->
  run db text inc = (db, Ret (map (render_row inc) rows)).
Proof.
  intros Ho Ht Hs Hp He. unfold run. rewrite Ho.
  rewrite (execute_select db text st q Ht Hs Hp), He. reflexivity.
Qed.

Lemma exec_albums artists albums tracks customers others frag :
  exec_select (chinook artists albums tracks customers others)
    (albums_query frag)
  = Ret (map (fun r => [("Title", cell 1 r); ("Name", cell 4 r)])
           (albums_rows artists albums frag)).
Proof. reflexivity. Qed.

Lemma exec_tracks artists albums tracks customers others frag :
  exec_select (chinook artists albums tracks customers others)
    (tracks_query frag)
  = Ret (map (fun r => [("SongName", cell 6 r); ("ArtistName", cell 4 r)])
           (tracks_rows artists albums tracks frag)).
Proof. reflexivity. Qed.

Lemma exec_songs artists albums tracks customers others frag :
  exec_select (chinook artists albums tracks customers others)
    (songs_query frag)
  = Ret (map (project (star_items (scope_of (track_table [])) 0))
           (songs_rows tracks frag)).
Proof. reflexivity. Qed.


Lemma albums_run artists albums tracks customers others frag :
  plain frag = true ->
  get_albums_by_artist (chinook artists albums tracks customers others) frag
  = (chinook artists albums tracks customers others,
     Ret (map (fun r => RowDict [("Title", cell 1 r); ("Name", cell 4 r)])
            (albums_rows artists albums frag))).
Proof.
  intros Hp. unfold get_albums_by_artist.
  destruct (plain_inv _ Hp) as (Hq & _).
  erewrite run_select;
    [ rewrite map_map; reflexivity
    | now apply outside_text_plain
    | apply (lex_template _ _ _ feed_albums_head Hq)
    | reflexivity
    | reflexivity
    | apply exec_albums ].
Qed.

Lemma tracks_run artists albums tracks customers others frag :
  plain frag = true ->
  get_tracks_by_artist (chinook artists albums tracks customers others) frag
  = (chinook artists albums tracks customers others,
     Ret (map (fun r => song_dict (cell 6 r) (cell 4 r))
            (tracks_rows artists albums tracks frag))).
Proof.
  intros Hp. unfold get_tracks_by_artist.
  destruct (plain_inv _ Hp) as (Hq & _).
  erewrite run_select;
    [ rewrite map_map; reflexivity
    | now apply outside_text_plain
    | apply (lex_template _ _ _ feed_tracks_head Hq)
    | reflexivity
    | reflexivity
    | apply exec_tracks ].
Qed.

Lemma songs_run artists albums tracks customers others frag :
  plain frag = true ->
  check_for_songs (chinook artists albums tracks customers others) frag
  = (chinook artists albums tracks customers others,
     Ret (map track_dict (songs_rows tracks frag))).
Proof.
  intros Hp. unfold check_for_songs.
  destruct (plain_inv _ Hp) as (Hq & _).
  erewrite run_select;
    [ rewrite map_map; reflexivity
    | now apply outside_text_plain
    | apply (lex_template _ _ _ feed_songs_head Hq)
    | reflexivity
    | reflexivity
    | apply exec_songs ].
Qed.



(** ** LIKE *)

Lemma like_star (p s : string) :
  like (String "%" p) s
  = like p s || match s with
                | EmptyString => false
                | String _ s' => like (String "%" p) s'
                end.
Proof. destruct s; reflexivity. Qed.

Lemma like_percent (s : string) : like "%" s = true.
Proof.
  induction s as [|c s IH]; [reflexivity|].
  rewrite like_star. cbn [like orb]. exact IH.
Qed.

Lemma contains_ci_unfold (frag s : string) :
  contains_ci frag s
  = prefix_ci frag s || match s with
                        | EmptyString => false
                        | String _ s' => contains_ci frag s'
                        end.
Proof. destruct s; reflexivity. Qed.




(** A text that begins with [frag] matches [frag%], whatever wildcards
    [frag] holds: a wildcard also stands for itself. *)
Lemma prefix_like (frag : string) :
  forall s, prefix_ci frag s = true -> like (frag ++ "%") s = true.
Proof.
  induction frag as [|c frag IH]; intros s H.
  - apply like_percent.
  - change (String c frag ++ "%") with (String c (frag ++ "%")).
    destruct s as [|d s]; [discriminate|].
    cbn [prefix_ci] in H. apply andb_prop in H as [Hc Hf].
    destruct (Ascii.eqb c "%") eqn:E.
    + apply Ascii.eqb_eq in E. subst c.
      rewrite like_star. apply orb_true_iff. right.
      rewrite like_star. apply orb_true_iff. left. now apply IH.
    + cbn [like]. rewrite E, Hc, orb_true_r. cbn [andb]. now apply IH.
Qed.

Lemma contains_like (frag : string) :
  forall s, contains_ci frag s = true -> like ("%" ++ frag ++ "%") s = true.
Proof.
  change ("%" ++ frag ++ "%") with (String "%" (frag ++ "%")).
  induction s as [|d s IH]; rewrite contains_ci_unfold, like_star; intros H;
    apply orb_prop in H as [H|H]; try discriminate;
    apply orb_true_iff; [left | left | right];
    [now apply prefix_like .. | now apply IH].
Qed.

Lemma name_has_like (frag : string) (v : value) :
  name_has frag v = true -> name_like frag v = true.
Proof.
  unfold name_has, name_like, like_value, pattern_of. cbn [text_of].
  destruct (text_of v) as [s|]; [|discriminate].
  intros H. cbn [holds]. now rewrite (contains_like _ _ H).
Qed.



(** ** Rows *)

Lemma fit_length (n : nat) (r : row) : List.length (fit n r) = n.
Proof.
  unfold fit. rewrite length_firstn, length_app, repeat_length. lia.
Qed.

Lemma nth_fit (i n : nat) (r : row) :
  nth i (fit n r) VNull = if Nat.ltb i n then nth i r VNull else VNull.
Proof.
  unfold fit. destruct (Nat.ltb_spec i n) as [H|H].
  - rewrite nth_firstn. apply Nat.ltb_lt in H as H'. rewrite H'.
    destruct (Nat.lt_ge_cases i (List.length r)) as [G|G].
    + now rewrite app_nth1.
    + rewrite app_nth2 by exact G. rewrite (nth_overflow r) by exact G.
      apply nth_repeat.
  - apply nth_overflow. rewrite length_firstn, length_app, repeat_length. lia.
Qed.

Lemma nth_fit_app (i n : nat) (r rest : row) :
  nth i (fit n r ++ rest)%list VNull
  = if Nat.ltb i n then nth i r VNull else nth (i - n) rest VNull.
Proof.
  destruct (Nat.ltb_spec i n) as [H|H].
  - rewrite app_nth1 by (rewrite fit_length; exact H).
    rewrite nth_fit. apply Nat.ltb_lt in H. now rewrite H.
  - rewrite app_nth2 by (rewrite fit_length; exact H).
    now rewrite fit_length.
Qed.

Lemma fit_id (n : nat) (r : row) : List.length r = n -> fit n r = r.
Proof.
  intros H. unfold fit. subst n. rewrite firstn_app, firstn_all.
  rewrite Nat.sub_diag. cbn [firstn]. apply app_nil_r.
Qed.

Lemma in_scan (t : table) (x : row) :
  In x (scan t) <->
  exists r, In r (t_rows t) /\ x = fit (List.length (t_cols t)) r.
Proof.
  unfold scan. rewrite in_map_iff. split; intros (r & H1 & H2).
  - exists r. now split.
  - exists r. now split.
Qed.

Lemma filter_nil_iff {A} (f : A -> bool) (l : list A) :
  filter f l = [] <-> forall x, In x l -> f x = false.
Proof.
  induction l as [|a l IH]; cbn [filter].
  - split; [intros _ x [] | reflexivity].
  - destruct (f a) eqn:E.
    + split; [discriminate|]. intros H.
      specialize (H a (or_introl eq_refl)). congruence.
    + rewrite IH. split.
      * intros H x [<-|Hx]; [exact E | now apply H].
      * intros H x Hx. apply H. now right.
Qed.

(** What a join step yields: a left row with each of its partners,
    and, for a LEFT JOIN, a left row without partner padded with
    NULLs. *)
Lemma in_join_rows (k : join_kind) (on : rcond) (right : list row)
    (w : nat) (left : list row) (x : row) :
  In x (join_rows k on right w left) <->
  exists l, In l left /\
    ((exists r, In r right /\ holds (eval_rcond on (l ++ r)%list) = true
                /\ x = (l ++ r)%list)
     \/ (k = LeftOuter
         /\ (forall r, In r right ->
                       holds (eval_rcond on (l ++ r)%list) = false)
         /\ x = (l ++ repeat VNull w)%list)).
Proof.
  unfold join_rows. rewrite in_flat_map.
  split; intros (l & Hl & H); exists l; (split; [exact Hl|]).
  - destruct k.
    + apply in_map_iff in H as (r & <- & Hr).
      apply filter_In in Hr as [Hr1 Hr2]. left. now exists r.
    + match type of H with
      | In _ (match ?e with _ => _ end) => destruct e as [|m ms] eqn:E
      end.
      * destruct H as [<-|[]]. right. repeat split.
        intros r Hr. now apply (proj1 (filter_nil_iff _ _) E).
      * apply in_map_iff in H as (r & <- & Hr). rewrite <- E in Hr.
        apply filter_In in Hr as [Hr1 Hr2]. left. now exists r.
  - destruct H as [(r & Hr1 & Hr2 & ->) | (-> & Hn & ->)].
    + assert (Hin : In r (filter (fun r : list value =>
                                    holds (eval_rcond on (l ++ r)%list)) right))
        by now apply filter_In.
      destruct k.
      * now apply in_map.
      * match goal with
        | |- In _ (match ?e with _ => _ end) => destruct e as [|m ms]
        end; [destruct Hin|]. now apply in_map.
    + match goal with
      | |- In _ (match ?e with _ => _ end) => destruct e as [|m ms] eqn:E
      end; [now left|]. exfalso.
      assert (Hm : In m (m :: ms)) by now left.
      rewrite <- E in Hm. apply filter_In in Hm as [H1 H2].
      rewrite (Hn _ H1) in H2. discriminate.
Qed.

(** Cells of a joined row, traced back to the stored rows. *)
Ltac cells :=
  unfold artist_id, artist_name, album_id, album_title, album_artist,
    track_name, track_album, customer_id, cell in *;
  cbn [eval_rcond eval_rop] in *;
  rewrite <- ?app_assoc in *;
  rewrite ?nth_fit_app, ?nth_fit in *;
  cbn [Nat.ltb Nat.leb Nat.sub repeat nth] in *.

(** ** Which rows the statements select *)


Lemma in_tracks_rows (artists albums tracks : list row) (frag : string)
    (x : row) :
  In x (tracks_rows artists albums tracks frag) <->
  exists album artist,
    In album albums /\ In artist artists
    /\ refers (album_artist album) (artist_id artist) = true
    /\ name_like frag (artist_name artist) = true
    /\ ((exists track,
           In track tracks
           /\ refers (track_album track) (album_id album) = true
           /\ x = ((fit 3 album ++ fit 2 artist) ++ fit 9 track)%list)
        \/ ((forall track, In track tracks ->
               refers (track_album track) (album_id album) = false)
            /\ x = ((fit 3 album ++ fit 2 artist) ++ repeat VNull 9)%list)).
Proof.
  unfold tracks_rows. rewrite filter_In, in_join_rows. split.
  - intros [(l & Hl & H) Hn].
    apply in_join_rows in Hl as (a & Ha & Hl).
    apply in_scan in Ha as (album & Hal & ->). cbn [album_table t_cols t_rows
      album_cols List.length] in *.
    destruct Hl as [(b & Hb & Hon & ->) | (_ & _ & ->)].
    + apply in_scan in Hb as (artist & Har & ->). cbn [artist_table t_cols
        t_rows artist_cols List.length] in *.
      exists album, artist.
      assert (Href : refers (album_artist album) (artist_id artist) = true)
        by (unfold refers; cells; exact Hon).
      destruct H as [(r & Hr & Hon2 & ->) | (_ & Hnone & ->)].
      * apply in_scan in Hr as (track & Htr & ->). cbn [track_table t_cols
          t_rows track_cols List.length] in *.
        repeat split; try assumption; [cells; exact Hn|].
        left. exists track. repeat split; try assumption.
        unfold refers. cells. exact Hon2.
      * repeat split; try assumption; [cells; exact Hn|].
        right. split; [|reflexivity]. intros track Htr.
        specialize (Hnone (fit 9 track)).
        unfold refers. cells. apply Hnone.
        apply in_scan. exists track. now split.
    + exfalso.
      destruct H as [(r & _ & _ & ->) | (_ & _ & ->)]; cells; discriminate.
  - intros (album & artist & Hal & Har & Href & Hn & H).
    assert (Hl : In (fit 3 album ++ fit 2 artist)%list
                   (join_rows LeftOuter (REq (RCol 2) (RCol 3))
                      (scan (artist_table artists)) 2
                      (scan (album_table albums)))).
    { apply in_join_rows. exists (fit 3 album). split.
      - apply in_scan. exists album. now split.
      - left. exists (fit 2 artist). split; [|split; [|reflexivity]].
        + apply in_scan. exists artist. now split.
        + unfold refers in Href. cells. exact Href. }
    destruct H as [(track & Htr & Href2 & ->) | (Hnone & ->)].
    + split; [|cells; exact Hn].
      exists (fit 3 album ++ fit 2 artist)%list. split; [exact Hl|].
      left. exists (fit 9 track). split; [|split; [|reflexivity]].
      * apply in_scan. exists track. now split.
      * unfold refers in Href2. cells. exact Href2.
    + split; [|cells; exact Hn].
      exists (fit 3 album ++ fit 2 artist)%list. split; [exact Hl|].
      right. split; [reflexivity|]. split; [|reflexivity].
      intros r Hr. apply in_scan in Hr as (track & Htr & ->).
      cbn [track_table t_cols t_rows track_cols List.length] in *.
      specialize (Hnone track Htr). unfold refers in Hnone. cells.
      exact Hnone.
Qed.




(** ** The customer lookup *)







(** ** Albums by artist *)






(** ** Tracks by artist *)

Lemma song_dict_track (album artist track : row) :
  song_dict (cell 6 ((fit 3 album ++ fit 2 artist) ++ fit 9 track)%list)
            (cell 4 ((fit 3 album ++ fit 2 artist) ++ fit 9 track)%list)
  = song_dict (track_name track) (artist_name artist).
Proof. cells. reflexivity. Qed.

Lemma song_dict_no_track (album artist : row) :
  song_dict (cell 6 ((fit 3 album ++ fit 2 artist) ++ repeat VNull 9)%list)
            (cell 4 ((fit 3 album ++ fit 2 artist) ++ repeat VNull 9)%list)
  = song_dict VNull (artist_name artist).
Proof. cells. reflexivity. Qed.

(** The rows of [get_tracks_by_artist], for text without quote. *)
Lemma tracks_rows_described (artists albums tracks customers : list row)
    (others : database) (frag : string) :
  plain frag = true ->
  exists rows,
    get_tracks_by_artist (chinook artists albums tracks customers others) frag
    = (chinook artists albums tracks customers others, Ret rows)
    /\ (forall row,
          In row rows <->
          exists album artist,
            In album albums /\ In artist artists
            /\ refers (album_artist album) (artist_id artist) = true
            /\ name_like frag (artist_name artist) = true
            /\ ((exists track,
                   In track tracks
                   /\ refers (track_album track) (album_id album) = true
                   /\ row = song_dict (track_name track) (artist_name artist))
                \/ ((forall track, In track tracks ->
                       refers (track_album track) (album_id album) = false)
                    /\ row = song_dict VNull (artist_name artist))))
    /\ ((forall album artist,
           In album albums -> In artist artists ->
           name_like frag (artist_name artist) = true ->
           refers (album_artist album) (artist_id artist) = false) ->
        rows = []).
Proof.
  intros Hp. eexists. split; [apply (tracks_run _ _ _ _ _ _ Hp)|].
  assert (Hchar : forall row,
    In row (map (fun r => song_dict (cell 6 r) (cell 4 r))
              (tracks_rows artists albums tracks frag)) <->
    exists album artist,
      In album albums /\ In artist artists
      /\ refers (album_artist album) (artist_id artist) = true
      /\ name_like frag (artist_name artist) = true
      /\ ((exists track,
             In track tracks
             /\ refers (track_album track) (album_id album) = true
             /\ row = song_dict (track_name track) (artist_name artist))
          \/ ((forall track, In track tracks ->
                 refers (track_album track) (album_id album) = false)
              /\ row = song_dict VNull (artist_name artist)))).
  { intros row. rewrite in_map_iff. split.
    - intros (x & <- & Hx). apply in_tracks_rows in Hx
        as (album & artist & H1 & H2 & H3 & H4 & H).
      exists album, artist. repeat split; try assumption.
      destruct H as [(track & T1 & T2 & ->) | (T1 & ->)].
      + left. exists track. rewrite song_dict_track. now repeat split.
      + right. rewrite song_dict_no_track. now split.
    - intros (album & artist & H1 & H2 & H3 & H4 & H).
      destruct H as [(track & T1 & T2 & ->) | (T1 & ->)].
      + exists ((fit 3 album ++ fit 2 artist) ++ fit 9 track)%list. split.
        * apply song_dict_track.
        * apply in_tracks_rows. exists album, artist.
          repeat split; try assumption. left. now exists track.
      + exists ((fit 3 album ++ fit 2 artist) ++ repeat VNull 9)%list. split.
        * apply song_dict_no_track.
        * apply in_tracks_rows. exists album, artist.
          repeat split; try assumption. now right. }
  split; [exact Hchar|].
  intros Hnone.
  destruct (map _ (tracks_rows artists albums tracks frag)) as [|row rows] eqn:E;
    [reflexivity|]. exfalso.
  destruct (proj1 (Hchar row)) as (album & artist & H1 & H2 & H3 & H4 & _).
  - try rewrite E. now left.
  - rewrite (Hnone album artist H1 H2 H4) in H3. discriminate.
Qed.



(** Where the text stays inside its literal, the outer join on Track
    does what C7 says, wildcards or not: an album without tracks whose
    artist's name contains the fragment yields the row with the absent
    track name. *)
Lemma tracks_keeps_trackless_albums
    (artists albums tracks customers : list row) (others : database)
    (frag : string) (album artist : row) :
  plain frag = true ->
  In album albums -> In artist artists ->
  refers (album_artist album) (artist_id artist) = true ->
  name_has frag (artist_name artist) = true ->
  (forall track, In track tracks ->
     refers (track_album track) (album_id album) = false) ->
  exists rows,
    get_tracks_by_artist (chinook artists albums tracks customers others) frag
    = (chinook artists albums tracks customers others, Ret rows)
    /\ In (song_dict VNull (artist_name artist)) rows.
Proof.
  intros Hp Hal Har Href Hn Hnone.
  destruct (tracks_rows_described artists albums tracks customers others frag
              Hp) as (rows & Hrun & Hrows & _).
  exists rows. split; [exact Hrun|]. apply Hrows.
  exists album, artist. repeat split; try assumption.
  - now apply name_has_like.
  - now right.
Qed.



(** C1 at inputs where the code departs from it.  The pasted text is
    read as part of the statement: a lone quote makes the engine
    raise, although an artist has it in the name; a fragment that
    closes the literal and adds a condition brings back every track
    and every album, although no name contains the fragment. *)
Theorem pasted_text_is_not_literal :
  name_has "'" (VText "Guns N' Roses") = true
  /\ snd (get_albums_by_artist demo_store "'") = Raise OperationalError
  /\ forallb (fun t => negb (name_has "zzz' OR 'a' LIKE 'a" (track_name t)))
       demo_tracks = true
  /\ snd (check_for_songs demo_store "zzz' OR 'a' LIKE 'a")
     = Ret (map track_dict demo_tracks)
  /\ snd (get_tracks_by_artist demo_store "zzz' OR 'a' LIKE 'a")
     = Ret [song_dict (VText "Hells Bells") (VText "AC/DC");
            song_dict (VText "Paradise City") (VText "Guns N' Roses");
            song_dict VNull (VText "Guns N' Roses")]
  /\ snd (get_albums_by_artist demo_store "zzz' OR 'a' LIKE 'a")
     = Ret [RowDict [("Title", VText "Back in Black");
                     ("Name", VText "AC/DC")];
            RowDict [("Title", VText "Appetite for Destruction");
                     ("Name", VText "Guns N' Roses")];
            RowDict [("Title", VText "Unreleased");
                     ("Name", VText "Guns N' Roses")]].
Proof. repeat split; vm_compute; reflexivity. Qed.

(** ** The empty fragment *)



(** ** No tool writes *)

Lemma execute_select_frame (db : database) (text : string)
    (toks : list token) :
  tokens text = TKw KSelect :: toks -> fst (execute db text) = db.
Proof.
  intros H. unfold execute. rewrite H. cbn [split_semi].
  destruct (split_semi toks) as [st tail]. unfold prepare.
  destruct (existsb is_bad _); [reflexivity|].
  destruct (existsb is_uncovered _); [reflexivity|].
  cbn [parse_stmt]. destruct (parse_select st) as [q|]; [|reflexivity].
  cbn [option_map exec_stmt]. destruct (exec_select db q); [|reflexivity..].
  destruct tail as [|[] ?]; reflexivity.
Qed.

Lemma run_select_frame (db : database) (text : string) (toks : list token)
    (inc : bool) :
  tokens text = TKw KSelect :: toks -> fst (run db text inc) = db.
Proof.
  intros H. unfold run. destruct (outside_text text); [reflexivity|].
  pose proof (execute_select_frame db text toks H) as G.
  destruct (execute db text) as [db' [rows|e|]]; exact G.
Qed.

Lemma tokens_after_head (head rest : string) (k : token)
    (toks : list token) (m : option mode) :
  feed MTop head = (k :: toks, m) ->
  exists toks', tokens (head ++ rest) = k :: toks'.
Proof.
  intros H. unfold tokens. rewrite lex_app, H. cbn [fst snd app].
  eexists. reflexivity.
Qed.

(** C8.  Whatever text or value a tool is given, the store it ran
    against comes back as it was: every statement a tool can build
    opens with SELECT, and the engine runs one statement. *)
Theorem tools_leave_store_unchanged (db : database) (text : string)
    (v : pyval) :
  fst (get_albums_by_artist db text) = db
  /\ fst (get_tracks_by_artist db text) = db
  /\ fst (check_for_songs db text) = db
  /\ fst (get_customer_info db v) = db.
Proof.
  repeat split.
  - destruct (tokens_after_head _ (text ++ "%';
        ") _ _ _ feed_albums_head) as [toks H].
    exact (run_select_frame db _ toks true H).
  - destruct (tokens_after_head _ (text ++ "%';
        ") _ _ _ feed_tracks_head) as [toks H].
    exact (run_select_frame db _ toks true H).
  - destruct (tokens_after_head _ (text ++ "%';
        ") _ _ _ feed_songs_head) as [toks H].
    exact (run_select_frame db _ toks true H).
  - destruct (tokens_after_head _ (format v ++ ";") _ _ _ feed_customer_head)
      as [toks H].
    exact (run_select_frame db _ toks false H).
Qed.

(** The engine itself can write: the frame property above is a
    property of the tools, not of the model of the engine.  A second
    statement smuggled in through a tool is refused. *)
Lemma engine_can_write :
  fst (execute demo_store "INSERT INTO Artist VALUES (7, 'New');")
  <> demo_store
  /\ check_for_songs demo_store "x'; INSERT INTO Artist VALUES (7, 'New'); --"
     = (demo_store, Raise ProgrammingError).
Proof.
  split.
  - vm_compute. discriminate.
  - vm_compute. reflexivity.
Qed.

(** ** The loader *)




(** ** The shell loop *)

Lemma is_exit_iff (line : string) :
  is_exit line = true <->
  lower line = "quit" \/ lower line = "exit" \/ lower line = "q".
Proof.
  unfold is_exit, str_in. cbn [existsb].
  rewrite !orb_true_iff, !String.eqb_eq. intuition discriminate.
Qed.



(** A session: a greeting, then QUIT; the line after it is never read. *)
Lemma shell_session_example :
  shell_loop echo_agent ["hello"; "QUIT"; "never read"]
    {| conversation_history := []; printed := [] |}
  = (Broke,
     {| conversation_history := [user_entry "hello"; assistant_entry "ok"];
        printed := ["You: "; assistant_line "ok"; "You: "; "Goodbye!"] |}).
Proof. vm_compute. reflexivity. Qed.

(** * Further properties of the tools *)


Lemma plain_covered (frag : string) : plain frag = true -> covered frag = true.
Proof.
  intros H. destruct (plain_inv _ H) as (_ & H1 & H2).
  unfold covered. now rewrite H1, H2.
Qed.















(** ** The case of the fragment *)

Lemma lower_app (a b : string) : lower (a ++ b) = lower a ++ lower b.
Proof. induction a as [|c a IH]; cbn [append lower]; [reflexivity | now rewrite IH]. Qed.

(** Only a wildcard lowers to a wildcard. *)
Lemma lower_ascii_percent (c : ascii) :
  lower_ascii c = "%"%char -> c = "%"%char.
Proof.
  destruct c as [[] [] [] [] [] [] [] []]; vm_compute; intros H;
    congruence.
Qed.

Lemma lower_ascii_underscore (c : ascii) :
  lower_ascii c = "_"%char -> c = "_"%char.
Proof.
  destruct c as [[] [] [] [] [] [] [] []]; vm_compute; intros H;
    congruence.
Qed.

Lemma eqb_percent_lower (c d : ascii) :
  lower_ascii c = lower_ascii d -> Ascii.eqb c "%" = Ascii.eqb d "%".
Proof.
  intros H. destruct (Ascii.eqb_spec c "%") as [->|Hc];
    destruct (Ascii.eqb_spec d "%") as [->|Hd]; try reflexivity.
  - exfalso. apply Hd. apply lower_ascii_percent. now rewrite <- H.
  - exfalso. apply Hc. apply lower_ascii_percent. now rewrite H.
Qed.

Lemma eqb_underscore_lower (c d : ascii) :
  lower_ascii c = lower_ascii d -> Ascii.eqb c "_" = Ascii.eqb d "_".
Proof.
  intros H. destruct (Ascii.eqb_spec c "_") as [->|Hc];
    destruct (Ascii.eqb_spec d "_") as [->|Hd]; try reflexivity.
  - exfalso. apply Hd. apply lower_ascii_underscore. now rewrite <- H.
  - exfalso. apply Hc. apply lower_ascii_underscore. now rewrite H.
Qed.

(** LIKE does not see the case of its pattern. *)
Lemma like_case (p : string) :
  forall q s, lower p = lower q -> like p s = like q s.
Proof.
  induction p as [|c p IH]; intros q s H.
  - destruct q; [reflexivity | discriminate].
  - destruct q as [|d q]; [discriminate|].
    cbn [lower] in H. injection H as Hc Hp.
    pose proof (eqb_percent_lower _ _ Hc) as Ep.
    pose proof (eqb_underscore_lower _ _ Hc) as Eu.
    destruct (Ascii.eqb c "%") eqn:E.
    + apply Ascii.eqb_eq in E. subst c. symmetry in Ep.
      apply Ascii.eqb_eq in Ep. subst d.
      induction s as [|x s IHs].
      * now rewrite (like_star p ""), (like_star q ""), (IH q _ Hp).
      * rewrite (like_star p (String x s)), (like_star q (String x s)).
        now rewrite (IH q _ Hp), IHs.
    + cbn [like]. rewrite E, <- Ep, <- Eu, Hc.
      destruct s as [|x s]; [reflexivity|]. now rewrite (IH q s Hp).
Qed.

Lemma name_like_case (f g : string) (v : value) :
  lower f = lower g -> name_like f v = name_like g v.
Proof.
  intros H. unfold name_like, like_value, pattern_of. cbn [text_of].
  destruct (text_of v) as [s|]; [|reflexivity].
  rewrite (like_case ("%" ++ f ++ "%") ("%" ++ g ++ "%")); [reflexivity|].
  now rewrite !lower_app, H.
Qed.

(** X3.  The three search tools ignore the ASCII case of the fragment:
    two fragments that stay inside their literal and are equal once
    lowered give the same result. *)
Theorem search_ignores_case (artists albums tracks customers : list row)
    (others : database) (f g : string) :
  plain f = true -> plain g = true -> lower f = lower g ->
  get_albums_by_artist (chinook artists albums tracks customers others) f
  = get_albums_by_artist (chinook artists albums tracks customers others) g
  /\ get_tracks_by_artist (chinook artists albums tracks customers others) f
     = get_tracks_by_artist (chinook artists albums tracks customers others) g
  /\ check_for_songs (chinook artists albums tracks customers others) f
     = check_for_songs (chinook artists albums tracks customers others) g.
Proof.
  intros Hf Hg H.
  rewrite (albums_run _ _ _ _ _ _ Hf), (albums_run _ _ _ _ _ _ Hg).
  rewrite (tracks_run _ _ _ _ _ _ Hf), (tracks_run _ _ _ _ _ _ Hg).
  rewrite (songs_run _ _ _ _ _ _ Hf), (songs_run _ _ _ _ _ _ Hg).
  unfold albums_rows, tracks_rows, songs_rows.
  repeat split; do 3 f_equal; apply filter_ext; intros r;
    now apply name_like_case.
Qed.

Lemma search_ignores_case_witness :
  plain "AC/dc" = true /\ plain "ac/DC" = true
  /\ lower "AC/dc" = lower "ac/DC"
  /\ get_albums_by_artist demo_store "AC/dc"
     = get_albums_by_artist demo_store "ac/DC"
  /\ get_tracks_by_artist demo_store "AC/dc"
     = get_tracks_by_artist demo_store "ac/DC"
  /\ check_for_songs demo_store "AC/dc" = check_for_songs demo_store "ac/DC".
Proof.
  split; [reflexivity|]. split; [reflexivity|]. split; [reflexivity|].
  apply (search_ignores_case demo_artists demo_albums demo_tracks
           demo_customers [] "AC/dc" "ac/DC"); reflexivity.
Defined.

(** ** A store without the tables *)




(** ** The two artist tools side by side *)





(** ** Longer fragments *)









(** * Further properties of the loader *)

Lemma split_semi_cons (t : token) (r : list token) :
  split_semi (t :: r)
  = match t with
    | TSym SSemi => ([], r)
    | _ => (t :: fst (split_semi r), snd (split_semi r))
    end.
Proof.
  cbn [split_semi]. destruct (split_semi r) as [a b].
  destruct t as [| | | |[]| | |]; reflexivity.
Qed.

Lemma split_semi_shorter (t : token) (r : list token) :
  List.length (snd (split_semi (t :: r))) <= List.length r.
Proof.
  revert t. induction r as [|u r IH]; intros t; rewrite split_semi_cons.
  - destruct t as [| | | |[]| | |]; cbn; lia.
  - specialize (IH u).
    destruct t as [| | | |[]| | |]; cbn [snd List.length] in *; lia.
Qed.

Lemma run_script_nil (f : nat) (db : database) :
  run_script f db [] = (db, Ret tt).
Proof. destruct f; reflexivity. Qed.

Lemma run_script_S (f : nat) (db : database) (ts : list token) :
  ts <> [] ->
  run_script (S f) db ts
  = match fst (split_semi ts) with
    | [] => run_script f db (snd (split_semi ts))
    | st =>
        match prepare st with
        | Ret s =>
            match exec_stmt db s with
            | (db', Ret _) => run_script f db' (snd (split_semi ts))
            | (_, Raise e) => (db, Raise e)
            | (_, Unmodelled) => (db, Unmodelled)
            end
        | Raise e => (db, Raise e)
        | Unmodelled => (db, Unmodelled)
        end
    end.
Proof.
  destruct ts as [|t r]; [congruence|]. intros _. cbn [run_script].
  destruct (split_semi (t :: r)) as [[|x st] tail]; reflexivity.
Qed.

(** Fuel beyond the number of tokens changes nothing. *)
Lemma run_script_fuel (f1 : nat) :
  forall f2 ts db,
    List.length ts <= f1 -> List.length ts <= f2 ->
    run_script f1 db ts = run_script f2 db ts.
Proof.
  induction f1 as [|f1 IH]; intros f2 ts db H1 H2.
  - destruct ts; [now rewrite !run_script_nil | cbn in H1; lia].
  - destruct ts as [|t r]; [now rewrite !run_script_nil|].
    destruct f2 as [|f2]; [cbn in H2; lia|].
    rewrite !run_script_S by discriminate.
    pose proof (split_semi_shorter t r) as L. cbn [List.length] in H1, H2.
    destruct (fst (split_semi (t :: r))) as [|x st].
    + apply IH; lia.
    + destruct (prepare (x :: st)) as [s|e|]; try reflexivity.
      destruct (exec_stmt db s) as [db' [rows|e|]]; try reflexivity.
      apply IH; lia.
Qed.

Lemma closed_tail (t : token) (ts : list token) :
  closed (t :: ts) -> closed ts.
Proof. unfold closed. destruct ts; [reflexivity | now cbn]. Qed.

Lemma split_semi_app (a b : list token) :
  a <> [] -> closed a ->
  split_semi (a ++ b)
  = (fst (split_semi a), (snd (split_semi a) ++ b)%list)
  /\ closed (snd (split_semi a)).
Proof.
  induction a as [|t a IH]; [congruence|]. intros _ Hc.
  change ((t :: a) ++ b)%list with (t :: (a ++ b))%list.
  rewrite !split_semi_cons.
  assert (Hsemi : t = TSym SSemi ->
                  ([], (a ++ b)%list) = (fst (@nil token, a), (snd (@nil token, a) ++ b)%list)
                  /\ closed (snd (@nil token, a))).
  { intros _. split; [reflexivity|]. apply (closed_tail _ _ Hc). }
  assert (Hother : a <> [] ->
            (t :: fst (split_semi (a ++ b)), snd (split_semi (a ++ b)))
            = (fst (t :: fst (split_semi a), snd (split_semi a)),
               (snd (t :: fst (split_semi a), snd (split_semi a)) ++ b)%list)
            /\ closed (snd (t :: fst (split_semi a), snd (split_semi a)))).
  { intros Hne. destruct (IH Hne (closed_tail _ _ Hc)) as [E C].
    rewrite E. cbn [fst snd]. now split. }
  assert (Hne : t <> TSym SSemi -> a <> []).
  { intros Ht ->. apply Ht. exact Hc. }
  destruct t as [| | | |[]| | |];
    try (apply Hother; apply Hne; discriminate).
  now apply Hsemi.
Qed.

(** A batch of whole statements followed by more text runs as the
    batch, then the rest. *)
Lemma run_script_app (f : nat) :
  forall a b db,
    closed a -> List.length (a ++ b) <= f ->
    run_script f db (a ++ b)
    = match run_script f db a with
      | (db1, Ret _) => run_script f db1 b
      | (db1, Raise e) => (db1, Raise e)
      | (db1, Unmodelled) => (db1, Unmodelled)
      end.
Proof.
  induction f as [|f IH]; intros a b db Hc Hl.
  - destruct a; [|cbn in Hl; lia]. now rewrite run_script_nil.
  - destruct a as [|t a]; [now rewrite run_script_nil|].
    assert (Hne : t :: a <> []) by discriminate.
    destruct (split_semi_app (t :: a) b Hne Hc) as [E C].
    rewrite (run_script_S f db ((t :: a) ++ b)) by discriminate.
    rewrite (run_script_S f db (t :: a)) by discriminate.
    rewrite E. cbn [fst snd].
    pose proof (split_semi_shorter t a) as L.
    rewrite length_app in Hl. cbn [List.length] in Hl.
    assert (Hfuel : forall db1, run_script (S f) db1 b = run_script f db1 b)
      by (intros db1; apply run_script_fuel; lia).
    assert (Hrest : forall db0,
              run_script f db0 (snd (split_semi (t :: a)) ++ b)
              = match run_script f db0 (snd (split_semi (t :: a))) with
                | (db1, Ret _) => run_script (S f) db1 b
                | (db1, Raise e) => (db1, Raise e)
                | (db1, Unmodelled) => (db1, Unmodelled)
                end).
    { intros db0. rewrite IH; [|exact C|rewrite length_app; lia].
      destruct (run_script f db0 _) as [db1 [u|e|]]; try reflexivity.
      now rewrite Hfuel. }
    destruct (fst (split_semi (t :: a))) as [|x st]; [apply Hrest|].
    destruct (prepare (x :: st)) as [s|e|]; try reflexivity.
    destruct (exec_stmt db s) as [db' [rows|e|]]; try reflexivity.
    apply Hrest.
Qed.

Lemma tokens_whole (s : string) (toks : list token) :
  feed MTop s = (toks, Some MTop) -> tokens s = toks.
Proof.
  intros H. unfold tokens. rewrite <- (append_empty_r s) at 1.
  rewrite lex_app, H. cbn [fst snd lex flush]. apply app_nil_r.
Qed.

Lemma executescript_app (db : database) (s1 s2 : string)
    (toks : list token) :
  feed MTop s1 = (toks, Some MTop) -> closed toks ->
  executescript db (s1 ++ s2)
  = match executescript db s1 with
    | (db1, Ret _) => executescript db1 s2
    | (db1, Raise e) => (db1, Raise e)
    | (db1, Unmodelled) => (db1, Unmodelled)
    end.
Proof.
  intros Hf Hc. unfold executescript.
  rewrite (tokens_whole _ _ Hf).
  assert (Ht : tokens (s1 ++ s2) = (toks ++ tokens s2)%list).
  { unfold tokens. rewrite lex_app, Hf. reflexivity. }
  rewrite Ht. rewrite run_script_app by (exact Hc || lia).
  rewrite (run_script_fuel (List.length (toks ++ tokens s2))
             (List.length toks) toks db)
    by (rewrite ?length_app; lia).
  destruct (run_script (List.length toks) db toks) as [db1 [u|e|]];
    try reflexivity.
  apply run_script_fuel; rewrite ?length_app; lia.
Qed.

(** X7.  The loader runs the script statement by statement and checks
    nothing at the end.  When a script loads, so does every part of it
    that stops after a whole statement, and the full store is that
    part's store with the rest of the script run on it: a download
    cut at such a point starts the program with the partial store. *)
Theorem loader_runs_script_in_parts (status : nat) (s1 s2 : string)
    (toks : list token) (db : database) :
  feed MTop s1 = (toks, Some MTop) ->
  last toks (TSym SSemi) = TSym SSemi ->
  startup (Responded status (s1 ++ s2)) = Ret db ->
  exists db1,
    startup (Responded status s1) = Ret db1
    /\ executescript db1 s2 = (db, Ret tt).
Proof.
  intros Hf Hc. unfold startup, get_engine_for_chinook_db.
  cbn [requests_get bind snd].
  rewrite (executescript_app [] s1 s2 toks Hf Hc).
  destruct (executescript [] s1) as [db1 [u|e|]]; try discriminate.
  intros H. exists db1. split; [reflexivity|].
  destruct (executescript db1 s2) as [db2 [[]|e|]]; try discriminate.
  now injection H as ->.
Qed.

Lemma loader_runs_script_in_parts_witness :
  feed MTop partial_script
  = ([TKw KCreate; TKw KTable; TId "Artist"; TSym SLParen;
      TId "ArtistId"; TId "INTEGER"; TSym SComma;
      TId "Name"; TId "NVARCHAR"; TSym SLParen; TNum 120; TSym SRParen;
      TSym SRParen; TSym SSemi;
      TKw KInsert; TKw KInto; TId "Artist"; TKw KValues; TSym SLParen;
      TNum 1; TSym SComma; TStr "AC/DC"; TSym SRParen; TSym SSemi],
     Some MTop)
  /\ startup (Responded 200
                (partial_script ++ "INSERT INTO Artist VALUES (2, 'Accept');"))
     = Ret [artist_table [[VInt 1; VText "AC/DC"]; [VInt 2; VText "Accept"]]]
  /\ exists db1,
       startup (Responded 200 partial_script) = Ret db1
       /\ executescript db1 "INSERT INTO Artist VALUES (2, 'Accept');"
          = ([artist_table [[VInt 1; VText "AC/DC"]; [VInt 2; VText "Accept"]]],
             Ret tt).
Proof.
  assert (H1 : feed MTop partial_script
    = ([TKw KCreate; TKw KTable; TId "Artist"; TSym SLParen;
        TId "ArtistId"; TId "INTEGER"; TSym SComma;
        TId "Name"; TId "NVARCHAR"; TSym SLParen; TNum 120; TSym SRParen;
        TSym SRParen; TSym SSemi;
        TKw KInsert; TKw KInto; TId "Artist"; TKw KValues; TSym SLParen;
        TNum 1; TSym SComma; TStr "AC/DC"; TSym SRParen; TSym SSemi],
       Some MTop)) by (vm_compute; reflexivity).
  assert (H2 : startup (Responded 200
                 (partial_script ++ "INSERT INTO Artist VALUES (2, 'Accept');"))
     = Ret [artist_table [[VInt 1; VText "AC/DC"]; [VInt 2; VText "Accept"]]])
    by (vm_compute; reflexivity).
  split; [exact H1|]. split; [exact H2|].
  exact (loader_runs_script_in_parts 200 partial_script _ _ _ H1 eq_refl H2).
Defined.

(** * Further properties of the shell loop *)

(** One answered turn. *)
Lemma shell_loop_answered (invoke : list entry -> invoked)
    (line : string) (rest : list string) (st : shell_state) (m : message) :
  is_exit line = false ->
  final_message (invoke (conversation_history st ++ [user_entry line])%list)
  = Some m ->
  shell_loop invoke (line :: rest) st
  = shell_loop invoke rest
      {| conversation_history :=
           ((conversation_history st ++ [user_entry line])
              ++ [assistant_entry (ai_content_of m)])%list;
         printed :=
           (printed st ++ ["You: "; assistant_line (ai_content_of m)])%list |}.
Proof.
  intros He Hm. cbn [shell_loop]. rewrite He. unfold final_message in Hm.
  destruct (invoke _) as [msgs| |e]; try discriminate.
  destruct (rev msgs) as [|m' ms]; [discriminate|].
  injection Hm as ->. now rewrite <- (app_assoc (printed st)).
Qed.

(** X8.  Nothing that follows the first exit word on standard input is
    read: the session is the same whatever comes after it. *)
Theorem nothing_read_after_exit (invoke : list entry -> invoked)
    (before : list string) (line : string) (rest rest' : list string)
    (st : shell_state) :
  is_exit line = true ->
  shell_loop invoke (before ++ line :: rest) st
  = shell_loop invoke (before ++ line :: rest') st.
Proof.
  intros He. revert st. induction before as [|a before IH]; intros st.
  - cbn [app shell_loop]. now rewrite He.
  - cbn [app shell_loop]. destruct (is_exit a); [reflexivity|].
    destruct (invoke _) as [msgs| |e]; [|apply IH|reflexivity].
    destruct (rev msgs); [reflexivity | apply IH].
Qed.

Lemma nothing_read_after_exit_witness :
  is_exit "Exit" = true
  /\ shell_loop echo_agent (["hi"] ++ "Exit" :: ["more"; "lines"])
       {| conversation_history := []; printed := [] |}
     = shell_loop echo_agent (["hi"] ++ "Exit" :: [])
         {| conversation_history := []; printed := [] |}.
Proof.
  split; [reflexivity|].
  apply (nothing_read_after_exit echo_agent ["hi"] "Exit"). reflexivity.
Defined.

(** X9.  With an agent that answers every call with at least one
    message, a run of lines that are no exit words is a run of
    answered turns: an exit word after them ends the loop through
    [break] with the history of those turns, the end of input instead
    ends it with EOFError and the same history, and that history got
    one user entry and one assistant entry per line, the user entries
    carrying the lines in order. *)
Theorem answered_session (invoke : list entry -> invoked)
    (lines : list string) (st : shell_state) :
  (forall history, final_message (invoke history) <> None) ->
  Forall (fun l => is_exit l = false) lines ->
  (forall quit rest,
     is_exit quit = true ->
     shell_loop invoke (lines ++ quit :: rest) st
     = (Broke,
        {| conversation_history :=
             conversation_history (session invoke lines st);
           printed :=
             (printed (session invoke lines st)
                ++ ["You: "; "Goodbye!"])%list |}))
  /\ shell_loop invoke lines st
     = (Crashed EOFError,
        {| conversation_history :=
             conversation_history (session invoke lines st);
           printed := (printed (session invoke lines st) ++ ["You: "])%list |})
  /\ map e_role (conversation_history (session invoke lines st))
     = (map e_role (conversation_history st)
          ++ flat_map (fun _ => [User; Assistant]) lines)%list
  /\ map e_content
       (filter is_user (conversation_history (session invoke lines st)))
     = (map e_content (filter is_user (conversation_history st))
          ++ lines)%list.
Proof.
  intros Hans Hl. revert st.
  induction Hl as [|line lines Hline Hl IH]; intros st.
  - cbn [session app flat_map map]. rewrite !app_nil_r.
    repeat split; try reflexivity.
    intros quit rest Hq. cbn [shell_loop]. rewrite Hq.
    now rewrite <- app_assoc.
  - cbn [session app].
    destruct (final_message
                (invoke (conversation_history st ++ [user_entry line])%list))
      as [m|] eqn:Hm; [|now apply Hans in Hm].
    destruct (IH {| conversation_history :=
                      ((conversation_history st ++ [user_entry line])
                         ++ [assistant_entry (ai_content_of m)])%list;
                    printed :=
                      (printed st
                         ++ ["You: "; assistant_line (ai_content_of m)])%list |})
      as (I1 & I2 & I3 & I4).
    repeat split.
    + intros quit rest Hq.
      rewrite (shell_loop_answered invoke line _ st m Hline Hm).
      now apply I1.
    + rewrite (shell_loop_answered invoke line _ st m Hline Hm). exact I2.
    + rewrite I3. cbn [conversation_history flat_map].
      rewrite !map_app. cbn [map user_entry assistant_entry e_role app].
      now rewrite <- !app_assoc.
    + rewrite I4. cbn [conversation_history].
      rewrite !filter_app, !map_app.
      cbn [filter map is_user user_entry assistant_entry e_role e_content app].
      rewrite app_nil_r. now rewrite <- !app_assoc.
Qed.

Lemma answered_session_witness :
  (forall history, final_message (echo_agent history) <> None)
  /\ Forall (fun l => is_exit l = false) ["hello"; "any AC/DC?"]
  /\ shell_loop echo_agent (["hello"; "any AC/DC?"] ++ "q" :: ["unread"])
       {| conversation_history := []; printed := [] |}
     = (Broke,
        {| conversation_history :=
             [user_entry "hello"; assistant_entry "ok";
              user_entry "any AC/DC?"; assistant_entry "ok"];
           printed :=
             ["You: "; assistant_line "ok"; "You: "; assistant_line "ok";
              "You: "; "Goodbye!"] |}).
Proof.
  assert (H1 : forall history, final_message (echo_agent history) <> None)
    by (intros history; discriminate).
  assert (H2 : Forall (fun l => is_exit l = false) ["hello"; "any AC/DC?"])
    by (repeat constructor).
  split; [exact H1|]. split; [exact H2|].
  destruct (answered_session echo_agent ["hello"; "any AC/DC?"]
              {| conversation_history := []; printed := [] |} H1 H2)
    as (H & _).
  exact (H "q" ["unread"] eq_refl).
Defined.

(** X10.  Whatever the agent does, the loop only adds to the history
    and to the output: the final history is the initial one followed
    by new entries, whose user entries carry the first lines of
    standard input in order, none of them an exit word. *)
Theorem history_only_grows (invoke : list entry -> invoked)
    (stdin : list string) (st : shell_state) :
  exists added out n,
    conversation_history (snd (shell_loop invoke stdin st))
    = (conversation_history st ++ added)%list
    /\ printed (snd (shell_loop invoke stdin st)) = (printed st ++ out)%list
    /\ map e_content (filter is_user added) = firstn n stdin
    /\ Forall (fun l => is_exit l = false) (firstn n stdin).
Proof.
  revert st. induction stdin as [|line stdin IH]; intros st.
  - exists [], ["You: "], 0. cbn. rewrite app_nil_r. now repeat split.
  - cbn [shell_loop]. destruct (is_exit line) eqn:He.
    + exists [], ["You: "; "Goodbye!"], 0. cbn.
      rewrite app_nil_r, <- app_assoc. now repeat split.
    + assert (Hstop : exists added out n,
                (conversation_history st ++ [user_entry line])%list
                = (conversation_history st ++ added)%list
                /\ (printed st ++ ["You: "])%list = (printed st ++ out)%list
                /\ map e_content (filter is_user added) = firstn n (line :: stdin)
                /\ Forall (fun l => is_exit l = false) (firstn n (line :: stdin))).
      { exists [user_entry line], ["You: "], 1. cbn. repeat split.
        constructor; [exact He | constructor]. }
      assert (Hgo : forall st1 added1 out1,
                conversation_history st1
                = (conversation_history st ++ user_entry line :: added1)%list ->
                filter is_user added1 = [] ->
                printed st1 = (printed st ++ out1)%list ->
                exists added out n,
                  conversation_history (snd (shell_loop invoke stdin st1))
                  = (conversation_history st ++ added)%list
                  /\ printed (snd (shell_loop invoke stdin st1))
                     = (printed st ++ out)%list
                  /\ map e_content (filter is_user added)
                     = firstn n (line :: stdin)
                  /\ Forall (fun l => is_exit l = false)
                       (firstn n (line :: stdin))).
      { intros st1 added1 out1 Hh Hfree Hp.
        destruct (IH st1) as (added & out & n & A1 & A2 & A3 & A4).
        exists (user_entry line :: added1 ++ added)%list, (out1 ++ out)%list,
          (S n).
        rewrite A1, A2, Hh, Hp. rewrite <- !app_assoc. cbn [app].
        repeat split.
        - cbn [filter is_user user_entry e_role map e_content firstn].
          rewrite filter_app, Hfree. cbn [app].
          now rewrite A3.
        - cbn [firstn]. now constructor. }
      destruct (invoke _) as [msgs| |e]; cbn [snd fst].
      * destruct (rev msgs) as [|m ms]; [exact Hstop|].
        apply (Hgo _ [assistant_entry (ai_content_of m)]
                 ["You: "; assistant_line (ai_content_of m)]).
        -- cbn [conversation_history]. now rewrite <- app_assoc.
        -- reflexivity.
        -- cbn [printed]. now rewrite <- app_assoc.
      * apply (Hgo _ [] ["You: "]); [|reflexivity|reflexivity].
        reflexivity.
      * exact Hstop.
Qed.

Lemma lower_ascii_space (c : ascii) :
  lower_ascii c = " "%char -> c = " "%char.
Proof.
  destruct c as [[] [] [] [] [] [] [] []]; vm_compute; intros H;
    congruence.
Qed.

Lemma has_space_lower (s : string) :
  has_char " " (lower s) = has_char " " s.
Proof.
  induction s as [|c s IH]; [reflexivity|].
  cbn [lower]. rewrite !has_char_cons, IH. f_equal.
  destruct (Ascii.eqb_spec " " c) as [<-|Hc]; [reflexivity|].
  apply Ascii.eqb_neq. intros H. apply Hc. symmetry.
  now apply lower_ascii_space.
Qed.

(** X11.  The exit words are compared as typed, without trimming: a
    line that contains a space, before, inside or after a word, is no
    exit word and goes to the agent. *)
Theorem line_with_space_is_no_exit (line : string) :
  has_char " " line = true -> is_exit line = false.
Proof.
  intros H. destruct (is_exit line) eqn:E; [|reflexivity].
  apply is_exit_iff in E. rewrite <- has_space_lower in H.
  destruct E as [E|[E|E]]; rewrite E in H; discriminate.
Qed.

Lemma line_with_space_is_no_exit_witness :
  has_char " " "quit " = true /\ is_exit "quit " = false.
Proof.
  split; [reflexivity|]. apply line_with_space_is_no_exit. reflexivity.
Defined.

(** * The choice of the agent in [src/agent_deepagents.py] *)

Lemma blank_cons (c : ascii) (s : string) :
  blank (String c s) = is_py_space c && blank s.
Proof. reflexivity. Qed.

Lemma lstrip_blank_app (l s : string) :
  blank l = true -> lstrip (l ++ s) = lstrip s.
Proof.
  induction l as [|c l IH]; intros H; [reflexivity|].
  rewrite blank_cons in H. apply andb_prop in H as [Hc Hl].
  change (String c l ++ s) with (String c (l ++ s)).
  cbn [lstrip]. rewrite Hc. now apply IH.
Qed.

Lemma rstrip_blank (r : string) : blank r = true -> rstrip r = "".
Proof.
  induction r as [|c r IH]; intros H; [reflexivity|].
  rewrite blank_cons in H. apply andb_prop in H as [Hc Hr].
  cbn [rstrip]. now rewrite (IH Hr), Hc.
Qed.

(** What [lstrip] takes away is blank. *)
Lemma lstrip_spec (s : string) :
  exists l, blank l = true /\ s = l ++ lstrip s.
Proof.
  induction s as [|c s (l & Hl & Hs)].
  - now exists "".
  - cbn [lstrip]. destruct (is_py_space c) eqn:E.
    + exists (String c l). rewrite blank_cons, E, Hl. split; [reflexivity|].
      cbn [append]. now rewrite <- Hs.
    + now exists "".
Qed.

(** What [rstrip] takes away is blank. *)
Lemma rstrip_spec (s : string) :
  exists r, blank r = true /\ s = rstrip s ++ r.
Proof.
  induction s as [|c s (r & Hr & Hs)].
  - now exists "".
  - cbn [rstrip]. destruct (rstrip s) as [|d t] eqn:E.
    + cbn [append] in Hs. destruct (is_py_space c) eqn:Ec.
      * exists (String c r). rewrite blank_cons, Ec, Hr.
        split; [reflexivity|]. cbn [append]. now rewrite <- Hs.
      * exists r. split; [exact Hr|]. cbn [append]. now rewrite <- Hs.
    + exists r. split; [exact Hr|]. cbn [append]. f_equal. exact Hs.
Qed.

(** X12.  The main program of [agent_deepagents.py] builds the agent
    with subagents exactly when the typed line is [2] between blanks;
    every other line, the empty one and [1] among them, builds the
    simple agent. *)
Theorem subagents_only_on_two (typed : string) :
  ascii_only typed = true ->
  (choose_architecture typed = WithSubagents <->
   exists l r, blank l = true /\ blank r = true /\ typed = l ++ "2" ++ r)
  /\ (choose_architecture typed = SimpleAgent <->
      ~ exists l r, blank l = true /\ blank r = true /\ typed = l ++ "2" ++ r).
Proof.
  intros _.
  assert (H : choose_architecture typed = WithSubagents <->
              exists l r,
                blank l = true /\ blank r = true /\ typed = l ++ "2" ++ r).
  { unfold choose_architecture, strip.
    destruct (String.eqb_spec (rstrip (lstrip typed)) "2") as [E|E].
    - split; [intros _|reflexivity].
      destruct (lstrip_spec typed) as (l & Hl & Hs).
      destruct (rstrip_spec (lstrip typed)) as (r & Hr & Ht).
      exists l, r. rewrite E in Ht. rewrite Hs at 1. rewrite Ht at 1.
      now repeat split.
    - split; [discriminate|].
      intros (l & r & Hl & Hr & ->). exfalso. apply E.
      rewrite (lstrip_blank_app l _ Hl).
      change (lstrip ("2" ++ r)) with (String "2" r).
      cbn [rstrip]. now rewrite (rstrip_blank r Hr). }
  split; [exact H|]. rewrite <- H.
  destruct (choose_architecture typed); split; congruence.
Qed.

Lemma subagents_only_on_two_witness :
  ascii_only " 2 " = true
  /\ choose_architecture " 2 " = WithSubagents
  /\ exists l r, blank l = true /\ blank r = true /\ " 2 " = l ++ "2" ++ r.
Proof.
  split; [reflexivity|].
  destruct (subagents_only_on_two " 2 " eq_refl) as [[H _] _].
  split; [reflexivity|]. apply H. reflexivity.
Defined.

(** * Albums and tracks counted *)

Lemma filter_all_or_none {A} (p : A -> bool) (b : bool) (l : list A) :
  (forall x, In x l -> p x = b) -> filter p l = if b then l else [].
Proof.
  intros H. induction l as [|a l IH]; [now destruct b|].
  cbn [filter]. rewrite (H a (or_introl eq_refl)).
  rewrite IH by (intros x Hx; apply H; now right). now destruct b.
Qed.





Lemma name_like_null (frag : string) : name_like frag VNull = false.
Proof. reflexivity. Qed.


